(** * Takeoff aggregation and workbook synthesis (ResultsView.tsx)

    A shallow embedding of the pure core of [src/components/ResultsView.tsx]:
    the description classifier and grouping engine ([groupedData]), the rebar
    aggregator ([rebarSummary]), the cost calculator ([grandTotalCost]) and the
    three-sheet workbook emitter ([handleExport]).

    Conventions of the embedding.
    - A JS string is a [string], read as a sequence of 8-bit code units; the
      string methods the component calls ([split], [join], [includes],
      [replace], [match]) are written out below.
    - A JS number is a rational [Q]: rounding, infinities and [NaN] inputs
      are not modelled, so sums are stated up to [Qeq] (or as the very fold
      the code performs).  Where the code multiplies by a value that is not
      a number (a member inherited from [Object.prototype]), the result is
      an [option Q] with [None] for [NaN]; a [NaN] that comes from an
      overflow ([Infinity * 0]) is outside the model, so nothing below
      concludes that a result is a number.
    - Built-ins whose result depends on the host (collation, case mapping,
      number printing) are the fields of the class [JsRuntime].
    - A plain object used as a dictionary is a [gmap] of its own properties
      together with the members every object inherits from
      [Object.prototype]; a [Map] or an object enumerated in insertion order
      is an association list. *)

From Stdlib Require Import QArith ZArith String Ascii List Sorting Permutation Lia.
From stdpp Require Import base strings gmap list pretty.
Import ListNotations.

Open Scope string_scope.

(** ** String primitives *)

Module JsString.

(** [parts.join(sep)] *)
Fixpoint join (sep : string) (parts : list string) : string :=
  match parts with
  | [] => ""
  | [p] => p
  | p :: ps => p ++ sep ++ join sep ps
  end.

(** Prepend a character to the segment being read. *)
Definition consHead (c : ascii) (segs : list string) : list string :=
  match segs with
  | seg :: rest => String c seg :: rest
  | [] => [String c ""]
  end.

(** [s.split(' - ')]: cut at every occurrence of the three-character
    delimiter, scanning from the left. *)
Fixpoint splitDash (s : string) : list string :=
  match s with
  | String " " (String "-" (String " " rest)) => "" :: splitDash rest
  | String c s' => consHead c (splitDash s')
  | EmptyString => [""]
  end.

(** The character class [[xX*]]. *)
Definition isDimSeparator (c : ascii) : bool :=
  (c =? "x")%char || (c =? "X")%char || (c =? "*")%char.

(** [s.split(/[xX*]/)] *)
Fixpoint splitDim (s : string) : list string :=
  match s with
  | String c s' =>
      if isDimSeparator c then "" :: splitDim s' else consHead c (splitDim s')
  | EmptyString => [""]
  end.

(** [hay.includes(needle)] *)
Fixpoint includes (needle hay : string) : bool :=
  String.prefix needle hay ||
  match hay with
  | String _ hay' => includes needle hay'
  | EmptyString => false
  end.

Fixpoint dropChars (n : nat) (s : string) : string :=
  match n, s with
  | S k, String _ s' => dropChars k s'
  | _, _ => s
  end.

(** [s.replace(pat, '')] with a string pattern: the first occurrence of
    [pat] is removed, later ones stay. *)
Fixpoint removeFirst (pat s : string) : string :=
  if String.prefix pat s then dropChars (String.length pat) s
  else match s with
       | String c s' => String c (removeFirst pat s')
       | EmptyString => EmptyString
       end.

(** The classes [[0-9]] and [[+-]]. *)
Definition isDigit (c : ascii) : bool :=
  (("0" <=? c) && (c <=? "9"))%char.

Definition isSign (c : ascii) : bool :=
  (c =? "+")%char || (c =? "-")%char.

(** The longest run of digits at the head of [s], and what follows it. *)
Fixpoint spanDigits (s : string) : string * string :=
  match s with
  | String c s' =>
      if isDigit c then
        let (ds, rest) := spanDigits s' in (String c ds, rest)
      else (EmptyString, s)
  | EmptyString => (EmptyString, EmptyString)
  end.

(** A match of [([0-9]*[.])?[0-9]+] at the head of [r1], after the sign
    [sign] has been read.  The quantifiers are greedy: the longest digit
    run is taken; the group [[0-9]*[.]] stands when a dot and at least one
    digit follow, otherwise the matcher backtracks to the bare digit run. *)
Definition unsignedHere (sign r1 : string) : option string :=
  let (ds, r2) := spanDigits r1 in
  let bare := match ds with
              | EmptyString => None
              | _ => Some (sign ++ ds)
              end in
  match r2 with
  | String "." r3 =>
      match fst (spanDigits r3) with
      | EmptyString => bare
      | fs => Some (sign ++ ds ++ "." ++ fs)
      end
  | _ => bare
  end.

(** A match of [/[+-]?([0-9]*[.])?[0-9]+/] that starts at the head of [s]:
    the sign is taken when present (without it nothing can match at a
    sign character). *)
Definition matchNumberHere (s : string) : option string :=
  match s with
  | String c s' => if isSign c then unsignedHere (String c "") s' else unsignedHere "" s
  | EmptyString => unsignedHere "" ""
  end.

(** [part.match(/[+-]?([0-9]*[.])?[0-9]+/)]: the leftmost match, [None]
    for JS [null]; the result is [match[0]]. *)
Fixpoint matchNumber (s : string) : option string :=
  match matchNumberHere s with
  | Some m => Some m
  | None =>
      match s with
      | String _ s' => matchNumber s'
      | EmptyString => None
      end
  end.

End JsString.

(** ** Host built-ins *)

(** The built-ins whose result is fixed by the host and its locale rather
    than by the component: [String.prototype.localeCompare] (negative, zero
    or positive), the two case mappings, and [Number::toString] as used by a
    template literal. *)
Class JsRuntime := {
  localeCompare : string -> string -> Z;
  toLowerCase : string -> string;
  toUpperCase : string -> string;
  numberToString : Q -> string
}.

(** What the sort below needs of a collation: it is a total preorder. *)
Class LawfulCollation (R : JsRuntime) : Prop := {
  localeCompare_total : forall a b, (0 < localeCompare a b)%Z -> (localeCompare b a <= 0)%Z;
  localeCompare_trans : forall a b c,
    (localeCompare a b <= 0)%Z -> (localeCompare b c <= 0)%Z -> (localeCompare a c <= 0)%Z
}.

(** [Array.prototype.sort(cmp)]: the sort is stable, so for a consistent
    comparator the result is the one ordering that puts [a] before [b]
    whenever [cmp a b < 0] and keeps ties in their original order.  It is
    computed here by stable insertion. *)
Module JsArray.

Fixpoint insertSorted {A : Type} (cmp : A -> A -> Z) (x : A) (l : list A) : list A :=
  match l with
  | [] => [x]
  | y :: l' => if (cmp x y <=? 0)%Z then x :: l else y :: insertSorted cmp x l'
  end.

Definition sort {A : Type} (cmp : A -> A -> Z) (l : list A) : list A :=
  fold_right (insertSorted cmp) [] l.

(** [arr.indexOf(x)] on an array of strings: first position, or -1. *)
Fixpoint indexOf (arr : list string) (x : string) : Z :=
  match arr with
  | [] => -1
  | y :: arr' =>
      if String.eqb y x then 0
      else let i := indexOf arr' x in if (i =? -1)%Z then -1 else (i + 1)
  end%Z.

End JsArray.

(** Sum of a list of numbers, for stating totals. *)
Definition sumQ (l : list Q) : Q := fold_right Qplus 0%Q l.

(** ** Plain objects used as dictionaries *)

Module JsObject.

(** The members every plain object inherits from [Object.prototype]. *)
Definition prototypeMembers : list string :=
  [ "constructor"; "hasOwnProperty"; "isPrototypeOf"; "propertyIsEnumerable";
    "toLocaleString"; "toString"; "valueOf";
    "__defineGetter__"; "__defineSetter__"; "__lookupGetter__"; "__lookupSetter__";
    "__proto__" ].

Definition isPrototypeMember (k : string) : bool :=
  existsb (String.eqb k) prototypeMembers.

(** The result of [obj[k]]: an own property, a member found on the
    prototype (a function, or the prototype itself for ["__proto__"]), or
    [undefined]. *)
Inductive Lookup (V : Type) : Type :=
| Own (v : V)
| Inherited
| Undefined.
Arguments Own {V} v.
Arguments Inherited {V}.
Arguments Undefined {V}.

Definition get {V : Type} (own : gmap string V) (k : string) : Lookup V :=
  match own !! k with
  | Some v => Own v
  | None => if isPrototypeMember k then Inherited else Undefined
  end.

(** [obj[k] = v] for a primitive [v] on an object created by [{}]: an own
    property is created or overwritten, except that the inherited
    ["__proto__"] setter swallows the assignment of a primitive. *)
Definition set {V : Type} (own : gmap string V) (k : string) (v : V) : gmap string V :=
  if String.eqb k "__proto__" then own else <[k := v]> own.

End JsObject.

(** ** Data model (types.ts) *)

Module TakeoffItem.
Record t : Type := mk {
  id : string;
  description : string;
  timesing : Q;
  dimension : string;
  quantity : Q;
  unit : string;
  category : string;
  confidence : string
}.
End TakeoffItem.

Module RebarItem.
Record t : Type := mk {
  id : string;
  member : string;
  barType : string;
  shapeCode : string;
  noOfMembers : Q;
  barsPerMember : Q;
  totalBars : Q;
  lengthPerBar : Q;
  totalLength : Q;
  totalWeight : Q
}.
End RebarItem.

(** [TakeoffItem & { axis: string }]: the object [{ ...item, axis }]. *)
Module AxisItem.
Record t : Type := mk {
  item : TakeoffItem.t;
  axis : string
}.
End AxisItem.

Module GroupedItem.
Record t : Type := mk {
  name : string;
  unit : string;
  category : string;
  items : list AxisItem.t;
  totalQuantity : Q
}.
End GroupedItem.

(** An element of [rebarSummary]. *)
Module RebarSummary.
Record t : Type := mk {
  name : string;
  totalQuantity : Q;
  unit : string
}.
End RebarSummary.

(** [TakeoffResult]; [rebarItems] may be missing at run time, which the
    component guards with [data.rebarItems || []]. *)
Module TakeoffResult.
Record t : Type := mk {
  projectName : string;
  items : list TakeoffItem.t;
  rebarItems : option (list RebarItem.t);
  summary : string
}.
End TakeoffResult.

(** Logical construction order. *)
Definition CATEGORY_ORDER : list string :=
  [ "Sub Structure"; "Super Structure"; "Openings"; "Finishing Works";
    "Painting"; "Electrical"; "Mechanical"; "Sanitary" ].

(** ** The component: derived data *)

Section ResultsView.

Context {R : JsRuntime}.

(** *** Item classifier: the description parsing inside [groupedData] *)

(** [parts.pop() || 'General']: an empty last segment is falsy. *)
Definition popOrGeneral (parts : list string) : string :=
  match List.last parts "" with
  | EmptyString => "General"
  | seg => seg
  end.

(** Returns [(groupName, axis)]. *)
Definition classify (description : string) : string * string :=
  let parts := JsString.splitDash description in
  if (3 <=? length parts)%nat then
    let axis := popOrGeneral parts in
    (JsString.join " - " (removelast parts), axis)
  else if (length parts =? 2)%nat then
    (nth 0 parts "", nth 1 parts "")
  else
    (description, "General").

(** *** Grouping and subtotals: [groupedData] *)

Definition matchesSearch (item : TakeoffItem.t) (searchTerm : string) : bool :=
  JsString.includes (toLowerCase searchTerm) (toLowerCase (TakeoffItem.description item)).

Definition matchesCategory (item : TakeoffItem.t) (categoryFilter : string) : bool :=
  String.eqb categoryFilter "All" || String.eqb (TakeoffItem.category item) categoryFilter.

Definition passesFilter (searchTerm categoryFilter : string) (item : TakeoffItem.t) : bool :=
  matchesSearch item searchTerm && matchesCategory item categoryFilter.

(** The template literal [`${groupName}|${item.unit}|${item.category}`]. *)
Definition groupKey (groupName : string) (item : TakeoffItem.t) : string :=
  groupName ++ "|" ++ TakeoffItem.unit item ++ "|" ++ TakeoffItem.category item.

(** [groups[key].items.push(entry); groups[key].totalQuantity += q] *)
Definition pushItem (entry : AxisItem.t) (g : GroupedItem.t) : GroupedItem.t :=
  GroupedItem.mk (GroupedItem.name g) (GroupedItem.unit g) (GroupedItem.category g)
    (GroupedItem.items g ++ [entry])
    (GroupedItem.totalQuantity g + TakeoffItem.quantity (AxisItem.item entry))%Q.

(** The object [groups], in the order [Object.values] enumerates it: every
    key holds two ["|"], so none is an array index or a prototype member
    and the enumeration is the insertion order. *)
Fixpoint addToGroups (key : string) (fresh : GroupedItem.t) (entry : AxisItem.t)
    (groups : list (string * GroupedItem.t)) : list (string * GroupedItem.t) :=
  match groups with
  | [] => [(key, pushItem entry fresh)]
  | (k, g) :: rest =>
      if String.eqb k key then (k, pushItem entry g) :: rest
      else (k, g) :: addToGroups key fresh entry rest
  end.

(** One turn of [data.items.forEach]. *)
Definition groupStep (searchTerm categoryFilter : string)
    (groups : list (string * GroupedItem.t)) (item : TakeoffItem.t)
    : list (string * GroupedItem.t) :=
  if passesFilter searchTerm categoryFilter item then
    let (groupName, axis) := classify (TakeoffItem.description item) in
    let key := groupKey groupName item in
    let fresh := GroupedItem.mk groupName (TakeoffItem.unit item)
                   (TakeoffItem.category item) [] 0%Q in
    addToGroups key fresh (AxisItem.mk item axis) groups
  else groups.

(** The groups in encounter order, before the sort. *)
Definition collectGroups (items : list TakeoffItem.t) (searchTerm categoryFilter : string)
    : list GroupedItem.t :=
  map snd (fold_left (groupStep searchTerm categoryFilter) items []).

(** The comparator handed to [sort]. *)
Definition compareGroups (a b : GroupedItem.t) : Z :=
  let idxA := JsArray.indexOf CATEGORY_ORDER (GroupedItem.category a) in
  let idxB := JsArray.indexOf CATEGORY_ORDER (GroupedItem.category b) in
  if negb (idxA =? idxB)%Z then
    let sortA := if (idxA =? -1)%Z then 999%Z else idxA in
    let sortB := if (idxB =? -1)%Z then 999%Z else idxB in
    (sortA - sortB)%Z
  else
    localeCompare (GroupedItem.name a) (GroupedItem.name b).

Definition groupedData (items : list TakeoffItem.t) (searchTerm categoryFilter : string)
    : list GroupedItem.t :=
  JsArray.sort compareGroups (collectGroups items searchTerm categoryFilter).

(** *** On-screen rebar table: [filteredRebar] *)

Definition filteredRebar (rebarItems : option (list RebarItem.t)) (searchTerm : string)
    : list RebarItem.t :=
  let lowerSearch := toLowerCase searchTerm in
  List.filter
    (fun item =>
       JsString.includes lowerSearch (toLowerCase (RebarItem.member item)) ||
       JsString.includes lowerSearch (toLowerCase (RebarItem.id item)) ||
       JsString.includes lowerSearch (toLowerCase (RebarItem.barType item)))
    (default [] rebarItems).

(** *** Rebar aggregator: [rebarSummary] *)

(** [summaryMap.get(k)] on a [Map] kept in insertion order. *)
Fixpoint mapGet (k : string) (m : list (string * Q)) : option Q :=
  match m with
  | [] => None
  | (k', v) :: rest => if String.eqb k' k then Some v else mapGet k rest
  end.

(** [summaryMap.set(k, v)]: an existing key keeps its position. *)
Fixpoint mapSet (k : string) (v : Q) (m : list (string * Q)) : list (string * Q) :=
  match m with
  | [] => [(k, v)]
  | (k', w) :: rest =>
      if String.eqb k' k then (k', v) :: rest else (k', w) :: mapSet k v rest
  end.

Definition summaryStep (summaryMap : list (string * Q)) (item : RebarItem.t)
    : list (string * Q) :=
  let currentWeight := default 0%Q (mapGet (RebarItem.barType item) summaryMap) in
  mapSet (RebarItem.barType item) (currentWeight + RebarItem.totalWeight item)%Q summaryMap.

Definition summaryMapOf (rebarItems : option (list RebarItem.t)) : list (string * Q) :=
  fold_left summaryStep (default [] rebarItems) [].

Definition summaryName (type : string) : string :=
  "Reinforcement Bars (Type " ++ type ++ ")".

Definition toSummary (entry : string * Q) : RebarSummary.t :=
  RebarSummary.mk (summaryName (fst entry)) (snd entry) "kg".

Definition compareSummaries (a b : RebarSummary.t) : Z :=
  localeCompare (RebarSummary.name a) (RebarSummary.name b).

Definition rebarSummary (rebarItems : option (list RebarItem.t)) : list RebarSummary.t :=
  JsArray.sort compareSummaries (map toSummary (summaryMapOf rebarItems)).

(** *** Cost calculator: [grandTotalCost] *)

(** [unitPrices[name] || 0], as a number: [None] when the value read is
    not a number (an inherited member), so that the product is [NaN]. *)
Definition rateOf (unitPrices : gmap string Q) (name : string) : option Q :=
  match JsObject.get unitPrices name with
  | JsObject.Own r => Some r
  | JsObject.Inherited => None
  | JsObject.Undefined => Some 0%Q
  end.

(** [total += quantity * rate], [NaN] absorbing. *)
Definition addCost (unitPrices : gmap string Q) (total : option Q)
    (name : string) (quantity : Q) : option Q :=
  match total, rateOf unitPrices name with
  | Some t, Some r => Some (t + quantity * r)%Q
  | _, _ => None
  end.

Definition grandTotalCost (groupedData : list GroupedItem.t)
    (rebarSummary : list RebarSummary.t) (unitPrices : gmap string Q) : option Q :=
  let total := Some 0%Q in
  let total :=
    fold_left (fun t group =>
                 addCost unitPrices t (GroupedItem.name group) (GroupedItem.totalQuantity group))
      groupedData total in
  fold_left (fun t group =>
               addCost unitPrices t (RebarSummary.name group) (RebarSummary.totalQuantity group))
    rebarSummary total.

End ResultsView.

(** ** The workbook *)

(** A cell of an array-of-arrays sheet: a bare string or number, or a cell
    object [{ t: 'n', ... }] carrying a value [v], a formula [f], or both.
    The last two constructors are the cell objects whose [f] or [v] is a
    member read off [Object.prototype] instead of a string or a number. *)
Inductive Cell : Type :=
| Str (s : string)
| Num (v : Q)
| NumberCell (v : Q)
| FormulaCell (f : string)
| FormulaValueCell (f : string) (v : Q)
| FormulaObjectCell
| ValueObjectCell.

Definition Row : Type := list Cell.

(** SheetJS [XLSX.utils.encode_col], [encode_row] and [encode_cell]: column
    letters in bijective base 26 followed by the 1-based row number. *)
Module XLSX.

Fixpoint encode_col_go (fuel col : nat) (s : string) : string :=
  match fuel with
  | O => s
  | S fuel' =>
      if (col =? 0)%nat then s
      else encode_col_go fuel' ((col - 1) / 26)
             (String (ascii_of_nat ((col - 1) mod 26 + 65)) s)
  end.

Definition encode_col (c : nat) : string := encode_col_go (S c) (S c) "".

Definition encode_row (r : nat) : string := pretty (r + 1)%nat.

Definition encode_cell (r c : nat) : string := encode_col c ++ encode_row r.

End XLSX.

Section Emitter.

Context {R : JsRuntime}.

(** *** Dimension formula synthesis *)

(** The loop over [rawParts] that fills [sanitizedParts]. *)
Fixpoint collectMatches (rawParts : list string) : list string :=
  match rawParts with
  | [] => []
  | part :: rest =>
      match JsString.matchNumber part with
      | Some m => m :: collectMatches rest
      | None => collectMatches rest
      end
  end.

Definition sanitizedParts (dimension : string) : list string :=
  collectMatches (JsString.splitDim dimension).

(** [item.timesing || 1] *)
Definition timesingVal (timesing : Q) : Q :=
  if Qeq_bool timesing 0 then 1%Q else timesing.

Definition timesingStr (timesing : Q) : string :=
  if negb (Qeq_bool (timesingVal timesing) 1) then numberToString (timesingVal timesing) ++ "*"
  else "".

Definition quantityCell (dimension : string) (timesing quantity : Q) : Cell :=
  let parts := sanitizedParts dimension in
  let isValidCalc := (0 <? length parts)%nat in
  if isValidCalc then
    FormulaValueCell (timesingStr timesing ++ JsString.join "*" parts) quantity
  else NumberCell quantity.

(** *** Sheet 1: Dim Sheet *)

Record DimState : Type := mkDimState {
  dimRows : list Row;
  groupAddressMap : gmap string string;
  lastCat : string;
  currentRowIdx : nat
}.

(** [dimRows.push(row); currentRowIdx++] *)
Definition pushCounted (row : Row) (st : DimState) : DimState :=
  mkDimState (dimRows st ++ [row]) (groupAddressMap st) (lastCat st) (S (currentRowIdx st)).

Definition categoryHeader (st : DimState) (group : GroupedItem.t) : DimState :=
  if negb (String.eqb (GroupedItem.category group) (lastCat st)) then
    let st := pushCounted [Str ""; Str (toUpperCase (GroupedItem.category group)); Str ""; Str ""] st in
    mkDimState (dimRows st) (groupAddressMap st) (GroupedItem.category group) (currentRowIdx st)
  else st.

Definition logicRow (item : AxisItem.t) : Row :=
  let t := TakeoffItem.timesing (AxisItem.item item) in
  [ Num (if Qle_bool t 1 then 1%Q else t);
    Str (AxisItem.axis item);
    Str (TakeoffItem.dimension (AxisItem.item item));
    Str "" ].

Definition valueRow (item : AxisItem.t) : Row :=
  let it := AxisItem.item item in
  [ Str ""; Str ""; Str "";
    quantityCell (TakeoffItem.dimension it) (TakeoffItem.timesing it) (TakeoffItem.quantity it) ].

Definition emitItem (st : DimState) (item : AxisItem.t) : DimState :=
  pushCounted (valueRow item) (pushCounted (logicRow item) st).

Definition subtotalRow (group : GroupedItem.t) : Row :=
  [ Str ""; Str "SUBTOTAL"; Str ""; NumberCell (GroupedItem.totalQuantity group) ].

(** The address string kept for a subtotal in row [r]. *)
Definition dimAddress (r : nat) : string := "'Dim Sheet'!" ++ XLSX.encode_cell r 3.

(** One turn of the first [groupedData.forEach]. *)
Definition emitGroup (st : DimState) (group : GroupedItem.t) : DimState :=
  let st := categoryHeader st group in
  let st := pushCounted [Str ""; Str (GroupedItem.name group); Str ""; Str ""] st in
  let st := fold_left emitItem (GroupedItem.items group) st in
  (* subtotal row: pushed first, addressed at the counter, counted after *)
  let st := mkDimState (dimRows st ++ [subtotalRow group]) (groupAddressMap st)
              (lastCat st) (currentRowIdx st) in
  let st := mkDimState (dimRows st)
              (JsObject.set (groupAddressMap st) (GroupedItem.name group)
                 (dimAddress (currentRowIdx st)))
              (lastCat st) (currentRowIdx st) in
  let st := mkDimState (dimRows st) (groupAddressMap st) (lastCat st) (S (currentRowIdx st)) in
  pushCounted [] st.

Definition dimHeader : Row := [Str "Timesing"; Str "Description"; Str "Dimension"; Str "Quantity"].

Definition dimSheet (groupedData : list GroupedItem.t) : DimState :=
  fold_left emitGroup groupedData (mkDimState [dimHeader] ∅ "" 1).

(** *** Sheet 3: Rebar Schedule *)

Definition rebarHeaders : Row :=
  [ Str "Member"; Str "Bar Mark"; Str "Type/Size"; Str "Shape Code"; Str "No. Members";
    Str "Bars/Member"; Str "Total Bars"; Str "Length (m)"; Str "Total Length (m)";
    Str "Total Weight (kg)" ].

Definition rebarRow (item : RebarItem.t) : Row :=
  [ Str (RebarItem.member item); Str (RebarItem.id item); Str (RebarItem.barType item);
    Str (RebarItem.shapeCode item); Num (RebarItem.noOfMembers item);
    Num (RebarItem.barsPerMember item); Num (RebarItem.totalBars item);
    Num (RebarItem.lengthPerBar item); Num (RebarItem.totalLength item);
    Num (RebarItem.totalWeight item) ].

Definition rebarRows (rebarItems : option (list RebarItem.t)) : list Row :=
  fold_left (fun rows item => (rows ++ [rebarRow item])%list) (default [] rebarItems)
    [rebarHeaders].

(** *** Sheet 2: Bill of Quantities *)

Record BoqState : Type := mkBoqState {
  boqRows : list Row;
  boqRowIndex : nat
}.

(** [createNumberCell(rate)] for [rate = unitPrices[name] || 0]. *)
Definition rateCell (unitPrices : gmap string Q) (name : string) : Cell :=
  match rateOf unitPrices name with
  | Some r => NumberCell r
  | None => ValueObjectCell
  end.

(** [qtyRef ? createFormulaCell(qtyRef) : createNumberCell(total)]: the
    empty string and [undefined] are falsy, an object is truthy. *)
Definition qtyCell (qtyRef : JsObject.Lookup string) (total : Q) : Cell :=
  match qtyRef with
  | JsObject.Own EmptyString => NumberCell total
  | JsObject.Own f => FormulaCell f
  | JsObject.Inherited => FormulaObjectCell
  | JsObject.Undefined => NumberCell total
  end.

(** [`C${excelRow}*D${excelRow}`] *)
Definition amountFormula (excelRow : nat) : string :=
  "C" ++ pretty excelRow ++ "*D" ++ pretty excelRow.

Definition boqGroupRow (addresses : gmap string string) (unitPrices : gmap string Q)
    (rowIndex : nat) (group : GroupedItem.t) : Row :=
  let qtyRef := JsObject.get addresses (GroupedItem.name group) in
  let excelRow := (rowIndex + 1)%nat in
  [ Str (GroupedItem.name group);
    Str (GroupedItem.unit group);
    qtyCell qtyRef (GroupedItem.totalQuantity group);
    rateCell unitPrices (GroupedItem.name group);
    FormulaCell (amountFormula excelRow) ].

(** One turn of the second [groupedData.forEach]. *)
Definition emitBoqGroup (addresses : gmap string string) (unitPrices : gmap string Q)
    (st : BoqState) (group : GroupedItem.t) : BoqState :=
  mkBoqState (boqRows st ++ [boqGroupRow addresses unitPrices (boqRowIndex st) group])%list
    (S (boqRowIndex st)).

(** The bar type recovered from a summary's display name. *)
Definition barTypeOf (name : string) : string :=
  JsString.removeFirst ")" (JsString.removeFirst "Reinforcement Bars (Type " name).

(** The double-quote character. *)
Definition dquote : string := String (ascii_of_nat 34) EmptyString.

(** [`SUMIF('Rebar Schedule'!C:C, "${barType}", 'Rebar Schedule'!J:J)`] *)
Definition sumIfFormula (barType : string) : string :=
  "SUMIF('Rebar Schedule'!C:C, " ++ dquote ++ barType ++ dquote ++ ", 'Rebar Schedule'!J:J)".

Definition boqRebarRow (unitPrices : gmap string Q) (rowIndex : nat) (r : RebarSummary.t) : Row :=
  let barType := barTypeOf (RebarSummary.name r) in
  let excelRow := (rowIndex + 1)%nat in
  [ Str (RebarSummary.name r);
    Str (RebarSummary.unit r);
    FormulaCell (sumIfFormula barType);
    rateCell unitPrices (RebarSummary.name r);
    FormulaCell (amountFormula excelRow) ].

Definition emitBoqRebar (unitPrices : gmap string Q) (st : BoqState) (r : RebarSummary.t)
    : BoqState :=
  mkBoqState (boqRows st ++ [boqRebarRow unitPrices (boqRowIndex st) r])%list
    (S (boqRowIndex st)).

Definition blankBoqRow : Row := [Str ""; Str ""; Str ""; Str ""; Str ""].

Definition boqHeader : Row :=
  [Str "Item Description"; Str "Unit"; Str "Total Quantity"; Str "Unit Rate"; Str "Total Amount"].

Definition boqSheet (groupedData : list GroupedItem.t) (rebarSummary : list RebarSummary.t)
    (addresses : gmap string string) (unitPrices : gmap string Q) : list Row :=
  let st := mkBoqState [boqHeader] 1 in
  let st := fold_left (emitBoqGroup addresses unitPrices) groupedData st in
  let st :=
    if (0 <? length rebarSummary)%nat then
      let st := mkBoqState
                  (boqRows st ++ [blankBoqRow]
                     ++ [[Str "REBAR SUMMARY"; Str ""; Str ""; Str ""; Str ""]])%list
                  (boqRowIndex st + 2) in
      fold_left (emitBoqRebar unitPrices) rebarSummary st
    else st in
  (boqRows st ++ [blankBoqRow]
     ++ [[ Str "GRAND TOTAL"; Str ""; Str ""; Str "";
           FormulaCell ("SUM(E2:E" ++ pretty (boqRowIndex st) ++ ")") ]])%list.

(** *** The export *)

(** The sheets in the order they are appended to the workbook.  Column
    widths and the name of the written file are presentation only. *)
Definition Workbook : Type := list (string * list Row).

Definition exportWorkbook (groupedData : list GroupedItem.t)
    (rebarSummary : list RebarSummary.t) (rebarItems : option (list RebarItem.t))
    (unitPrices : gmap string Q) : Workbook :=
  let dim := dimSheet groupedData in
  [ ("Dim Sheet", dimRows dim);
    ("Rebar Schedule", rebarRows rebarItems);
    ("Bill of Quantities",
      boqSheet groupedData rebarSummary (groupAddressMap dim) unitPrices) ].

(** [handleExport] for the component's props and state. *)
Definition handleExport (data : TakeoffResult.t) (searchTerm categoryFilter : string)
    (unitPrices : gmap string Q) : Workbook :=
  exportWorkbook
    (groupedData (TakeoffResult.items data) searchTerm categoryFilter)
    (rebarSummary (TakeoffResult.rebarItems data))
    (TakeoffResult.rebarItems data)
    unitPrices.

(** The rows of the sheet appended under [name]. *)
Definition sheetNamed (name : string) (wb : Workbook) : option (list Row) :=
  snd <$> List.find (fun s => String.eqb (fst s) name) wb.

End Emitter.

(** ** The component as a whole *)

(** What one render of [ResultsView] derives from its props ([data]) and its
    state ([searchTerm], [categoryFilter], [unitPrices]). *)
Module View.
Record t : Type := mk {
  groupedData : list GroupedItem.t;
  filteredRebar : list RebarItem.t;
  rebarSummary : list RebarSummary.t;
  grandTotalCost : option Q
}.
End View.

Definition ResultsView {R : JsRuntime} (data : TakeoffResult.t)
    (searchTerm categoryFilter : string) (unitPrices : gmap string Q) : View.t :=
  let grouped := groupedData (TakeoffResult.items data) searchTerm categoryFilter in
  let summary := rebarSummary (TakeoffResult.rebarItems data) in
  View.mk grouped
    (filteredRebar (TakeoffResult.rebarItems data) searchTerm)
    summary
    (grandTotalCost grouped summary unitPrices).

(** ** A runtime to evaluate the model with *)

(** ASCII text under code-unit collation, ASCII case mapping and decimal
    printing.  On upper-case ASCII words, and on whole numbers and short
    decimals, this is what a browser computes. *)
Module Reference.

Definition lowerChar (c : ascii) : ascii :=
  if (("A" <=? c) && (c <=? "Z"))%char then ascii_of_nat (nat_of_ascii c + 32) else c.

Definition upperChar (c : ascii) : ascii :=
  if (("a" <=? c) && (c <=? "z"))%char then ascii_of_nat (nat_of_ascii c - 32) else c.

Fixpoint mapChars (f : ascii -> ascii) (s : string) : string :=
  match s with
  | String c s' => String (f c) (mapChars f s')
  | EmptyString => EmptyString
  end.

Definition codeUnitCompare (a b : string) : Z :=
  match String.compare a b with
  | Lt => -1
  | Eq => 0
  | Gt => 1
  end%Z.

Fixpoint fractionDigits (fuel : nat) (rem den : Z) : string :=
  match fuel with
  | O => ""
  | S fuel' =>
      if (rem =? 0)%Z then ""
      else pretty (rem * 10 / den)%Z ++ fractionDigits fuel' ((rem * 10) mod den)%Z den
  end.

Definition decimalString (q : Q) : string :=
  let n := Qnum q in
  let d := Zpos (Qden q) in
  let whole := pretty (Z.abs n / d)%Z in
  let frac := fractionDigits 17 (Z.abs n mod d)%Z d in
  (if (n <? 0)%Z then "-" else "") ++ whole ++
  match frac with
  | EmptyString => ""
  | _ => "." ++ frac
  end.

Definition runtime : JsRuntime :=
  {| localeCompare := codeUnitCompare;
     toLowerCase := mapChars lowerChar;
     toUpperCase := mapChars upperChar;
     numberToString := decimalString |}.

End Reference.

(** ** Vocabulary of the statements *)

(** The language of [/[+-]?([0-9]*[.])?[0-9]+/], declaratively. *)
Definition Digits (s : string) : Prop :=
  Forall (fun c => JsString.isDigit c = true) (list_ascii_of_string s).

Definition NumberToken (t : string) : Prop :=
  exists sign group digits,
    t = sign ++ group ++ digits /\
    (sign = "" \/ sign = "+" \/ sign = "-") /\
    (group = "" \/ exists lead, Digits lead /\ group = lead ++ ".") /\
    Digits digits /\ digits <> "".

(** The segment contains a substring matching the pattern. *)
Definition HasNumber (seg : string) : Prop :=
  exists pre t post, seg = pre ++ t ++ post /\ NumberToken t.

(** Decision procedure for [HasNumber]: some character is a digit. *)
Definition hasDigit (seg : string) : bool :=
  existsb JsString.isDigit (list_ascii_of_string seg).

(** The value and the formula a cell carries, if any. *)
Definition cellValue (c : Cell) : option Q :=
  match c with
  | NumberCell v | FormulaValueCell _ v => Some v
  | _ => None
  end.

Definition cellFormula (c : Cell) : option string :=
  match c with
  | FormulaCell f | FormulaValueCell f _ => Some f
  | _ => None
  end.

(** Priority of a category: its position in [CATEGORY_ORDER], 999 when it
    is not listed. *)
Definition categoryRank (category : string) : Z :=
  let idx := JsArray.indexOf CATEGORY_ORDER category in
  if (idx =? -1)%Z then 999%Z else idx.

Definition knownCategory (g : GroupedItem.t) : bool :=
  existsb (String.eqb (GroupedItem.category g)) CATEGORY_ORDER.

(** The order the comparator of [groupedData] induces: category priority,
    then names under the collation. *)
Definition groupOrder {R : JsRuntime} (a b : GroupedItem.t) : Prop :=
  (categoryRank (GroupedItem.category a) < categoryRank (GroupedItem.category b))%Z \/
  (categoryRank (GroupedItem.category a) = categoryRank (GroupedItem.category b) /\
   (localeCompare (GroupedItem.name a) (GroupedItem.name b) <= 0)%Z).

(** Two groups the comparator does not tell apart. *)
Definition tiedWith {R : JsRuntime} (g x : GroupedItem.t) : bool :=
  (compareGroups g x <=? 0)%Z && (compareGroups x g <=? 0)%Z.

(** Two groups of one category whose names the collation does not tell
    apart. *)
Definition tiedInCategory {R : JsRuntime} (g x : GroupedItem.t) : bool :=
  String.eqb (GroupedItem.category x) (GroupedItem.category g)
  && (localeCompare (GroupedItem.name g) (GroupedItem.name x) <=? 0)%Z
  && (localeCompare (GroupedItem.name x) (GroupedItem.name g) <=? 0)%Z.

(** The price of a display name: its own entry in the price map, 0 when
    it has none. *)
Definition priceOf (unitPrices : gmap string Q) (name : string) : Q :=
  default 0%Q (unitPrices !! name).

(** Reading [unitPrices[name]] yields a number or [undefined], not a member
    of the prototype. *)
Definition readsNumber (unitPrices : gmap string Q) (name : string) : Prop :=
  JsObject.get unitPrices name <> JsObject.Inherited.

(** The quantity a member of a group carries. *)
Definition memberQuantity (e : AxisItem.t) : Q := TakeoffItem.quantity (AxisItem.item e).

(** A group's running total is the fold the code performed over its
    members, in order. *)
Definition totalIsFold (g : GroupedItem.t) : Prop :=
  GroupedItem.totalQuantity g
  = fold_left Qplus (map memberQuantity (GroupedItem.items g)) 0%Q.

(** The weights of the records of one bar type, in input order. *)
Definition weightsOf (type : string) (records : list RebarItem.t) : list Q :=
  map RebarItem.totalWeight
    (List.filter (fun r => String.eqb (RebarItem.barType r) type) records).

(** What the summary map holds for a bar type after the records [seen]. *)
Definition weightSoFar (t : string) (seen : list RebarItem.t) : option Q :=
  match weightsOf t seen with
  | [] => None
  | ws => Some (fold_left Qplus ws 0%Q)
  end.

(** ** Sample data *)

Module Sample.

Definition item (description : string) (timesing : Q) (dimension : string)
    (quantity : Q) (unit category : string) : TakeoffItem.t :=
  TakeoffItem.mk "1" description timesing dimension quantity unit category "High".

Definition items : list TakeoffItem.t :=
  [ item "Wall - Paint - Room 1" 2 "3.00 x 2.50" 15 "m2" "Painting";
    item "Grade Beam (GB1) - Concrete C30 - Grid A" 1 "15.00 x 0.60 x 1.20" (108 # 10)
      "m3" "Sub Structure";
    item "Wall - Paint - Room 2" 1 "4m x 2.50m" 10 "m2" "Painting" ].

(** Two items of one category that is not in [CATEGORY_ORDER]; the name
    that sorts first is met second. *)
Definition unlisted : list TakeoffItem.t :=
  [ item "SCAFFOLD" 1 "-" 1 "item" "Temporary Works";
    item "HOARDING" 1 "-" 1 "item" "Temporary Works" ].

(** Items whose description is the name of a member of [Object.prototype]. *)
Definition constructorItem : TakeoffItem.t := item "constructor" 1 "-" 1 "nr" "Openings".

Definition protoItem : TakeoffItem.t := item "__proto__" 1 "-" 1 "nr" "Openings".

Definition bar (barType : string) (totalWeight : Q) : RebarItem.t :=
  RebarItem.mk "01" "Grade Beam (Grid A)" barType "00" 1 1 1 1 1 totalWeight.

Definition rebarItems : list RebarItem.t := [bar "Y16" 10; bar "Y12" 5; bar "Y16" 1].

Definition data : TakeoffResult.t :=
  TakeoffResult.mk "Office Block" items (Some rebarItems) "".

End Sample.

(** ** More of ResultsView.tsx *)

(** An element of [chartData]. *)
Module ChartEntry.
Record t : Type := mk {
  name : string;
  count : nat;
  value : Q
}.
End ChartEntry.

Section MoreResultsView.

Context {R : JsRuntime}.

(** One turn of the [reduce] behind [chartData]: the first entry named
    like the item's category is updated in place, or a new entry is pushed. *)
Fixpoint chartStep (acc : list ChartEntry.t) (item : TakeoffItem.t) : list ChartEntry.t :=
  match acc with
  | [] => [ChartEntry.mk (TakeoffItem.category item) 1 (TakeoffItem.quantity item)]
  | x :: rest =>
      if String.eqb (ChartEntry.name x) (TakeoffItem.category item) then
        ChartEntry.mk (ChartEntry.name x) (ChartEntry.count x + 1)
          (ChartEntry.value x + TakeoffItem.quantity item)%Q :: rest
      else x :: chartStep rest item
  end.

Definition chartData (items : list TakeoffItem.t) : list ChartEntry.t :=
  fold_left chartStep items [].

(** [handleUnitPriceChange]: the next price map.  [parseFloat] is the
    host's, [None] standing for [NaN] (a text that parses to [Infinity] is
    outside the model); the computed key [[name]] of the object literal
    always defines an own property. *)
Definition handleUnitPriceChange (parseFloat : string -> option Q)
    (prev : gmap string Q) (name value : string) : gmap string Q :=
  let numValue := parseFloat value in
  <[ name := match numValue with
             | None => 0%Q
             | Some v => v
             end ]> prev.

(** The price map after a sequence of edits of rate inputs, each given as
    the display name and the text typed: the state updates are applied in
    order. *)
Definition applyPriceEdits (parseFloat : string -> option Q)
    (edits : list (string * string)) (prev : gmap string Q) : gmap string Q :=
  fold_left (fun p e => handleUnitPriceChange parseFloat p (fst e) (snd e)) edits prev.

(** The flags [showCategoryHeader] of the on-screen Dim Sheet, computed by
    the [groupedData.map] that threads [lastCategory]. *)
Definition showCategoryHeaders (groupedData : list GroupedItem.t) : list bool :=
  snd (fold_left
         (fun (st : string * list bool) group =>
            let showCategoryHeader := negb (String.eqb (GroupedItem.category group) (fst st)) in
            (GroupedItem.category group, (snd st ++ [showCategoryHeader])%list))
         groupedData ("", [])).

(** The class [\s] on 8-bit code units: tab, line feed, vertical tab, form
    feed, carriage return, space and no-break space. *)
Definition isWhitespace (c : ascii) : bool :=
  let n := nat_of_ascii c in
  ((9 <=? n) && (n <=? 13) || (n =? 32) || (n =? 160))%nat.

(** [s.replace(/\s+/g, '_')]; [inRun] tells that the character before was
    white space already replaced. *)
Fixpoint replaceWhitespaceRuns (inRun : bool) (s : string) : string :=
  match s with
  | EmptyString => EmptyString
  | String c s' =>
      if isWhitespace c then
        if inRun then replaceWhitespaceRuns true s'
        else String "_" (replaceWhitespaceRuns true s')
      else String c (replaceWhitespaceRuns false s')
  end.

(** The name [handleExport] writes the workbook under. *)
Definition exportFileName (data : TakeoffResult.t) : string :=
  let cleanProjectName :=
    replaceWhitespaceRuns false
      match TakeoffResult.projectName data with
      | EmptyString => "Takeoff"
      | name => name
      end in
  cleanProjectName ++ "_Complete_Takeoff.xlsx".

End MoreResultsView.

(** ** InstructionView *)

Module InstructionView.

(** The ids of [SCOPES], the initial [selectedScopes]. *)
Definition SCOPES : list string :=
  [ "Sub Structure"; "Super Structure"; "Openings"; "Finishing Works";
    "Painting"; "Electrical"; "Mechanical"; "Sanitary" ].

(** [prev.includes(id)] *)
Definition includes (arr : list string) (id : string) : bool :=
  existsb (String.eqb id) arr.

Definition toggleScope (prev : list string) (id : string) : list string :=
  if includes prev id then List.filter (fun s => negb (String.eqb s id)) prev
  else (prev ++ [id])%list.

(** The line feed between two suggestions. *)
Definition newline : string := String (ascii_of_nat 10) EmptyString.

Definition handleSuggestionClick (prev text : string) : string :=
  match prev with
  | EmptyString => text
  | _ => prev ++ newline ++ text
  end.

End InstructionView.

(** ** AnalysisView *)

Module AnalysisView.

Definition steps : list string :=
  [ "Uploading document securely...";
    "Preprocessing visual data...";
    "Gemini 2.5 identifying structural elements...";
    "Calculating quantities and measurements...";
    "Categorizing materials...";
    "Finalizing takeoff sheet..." ].

(** The state update run by the interval timer. *)
Definition tick (prev : nat) : nat :=
  if (prev <? length steps - 1)%nat then (prev + 1)%nat else prev.

(** [currentStep] after [n] ticks. *)
Definition currentStepAfter (n : nat) : nat := Nat.iter n tick 0%nat.

End AnalysisView.

(** ** The takeoff service: scope check and CAD simulation switch *)

Section GeminiService.

(** [checkMap]: the eight scope keys, each with [scopes.includes(key)]. *)
Definition checkMap (scopes : list string) : gmap string bool :=
  list_to_map
    (map (fun key => (key, InstructionView.includes scopes key))
       [ "Sub Structure"; "Super Structure"; "Finishing Works"; "Openings";
         "Painting"; "Electrical"; "Mechanical"; "Sanitary" ]).

(** [checkMap[key]] read as a condition: an inherited member is truthy. *)
Definition checkMapHas (scopes : list string) (key : string) : bool :=
  match JsObject.get (checkMap scopes) key with
  | JsObject.Own b => b
  | JsObject.Inherited => true
  | JsObject.Undefined => false
  end.

(** [categoryOrDescription.match(/Electrical|Mechanical|Sanitary/)] is not
    [null]. *)
Definition matchesMep (s : string) : bool :=
  JsString.includes "Electrical" s || JsString.includes "Mechanical" s
  || JsString.includes "Sanitary" s.

Definition isScopeAllowed (scopes : list string) (categoryOrDescription : string) : bool :=
  if (length scopes =? 0)%nat then true
  else if checkMapHas scopes categoryOrDescription then true
  else if JsString.includes "Electrical" categoryOrDescription
          && checkMapHas scopes "Electrical" then true
  else if JsString.includes "Mechanical" categoryOrDescription
          && checkMapHas scopes "Mechanical" then true
  else if JsString.includes "HVAC" categoryOrDescription
          && checkMapHas scopes "Mechanical" then true
  else if JsString.includes "Sanitary" categoryOrDescription
          && checkMapHas scopes "Sanitary" then true
  else if JsString.includes "Plumbing" categoryOrDescription
          && checkMapHas scopes "Sanitary" then true
  else if String.eqb categoryOrDescription "Finishing Works"
          && negb (matchesMep categoryOrDescription)
       then checkMapHas scopes "Finishing Works"
  else false.

(** The test that sends [generateTakeoff] to the CAD simulation instead of
    the model call. *)
Definition isSimulated (mimeType : string) : bool :=
  JsString.includes "dwg" mimeType || JsString.includes "dxf" mimeType
  || JsString.includes "octet-stream" mimeType || String.eqb mimeType "image/vnd.dwg".

End GeminiService.

(** ** App: file validation and the start of the analysis *)

Module App.

(** What [handleFileSelect] reads of a [File]. *)
Record File : Type := mkFile {
  name : string;
  type : string;
  size : N
}.

(** [s.split('.')] *)
Fixpoint splitDot (s : string) : list string :=
  match s with
  | String c s' =>
      if (c =? ".")%char then "" :: splitDot s' else JsString.consHead c (splitDot s')
  | EmptyString => [""]
  end.

Section WithRuntime.

Context {R : JsRuntime}.

(** ['.' + name.split('.').pop()?.toLowerCase()] *)
Definition fileExtension (name : string) : string :=
  "." ++ toLowerCase (List.last (splitDot name) "").

Definition validMimeTypes : list string :=
  ["image/png"; "image/jpeg"; "application/pdf"; "application/x-pdf"].

Definition validExtensions : list string := [".dwg"; ".dxf"].

Definition isValidType (file : File) : bool :=
  InstructionView.includes validMimeTypes (type file)
  || InstructionView.includes validExtensions (fileExtension (name file)).

(** The validation at the head of [handleFileSelect]: the error it sets, or
    [None] when the file goes on to be read. *)
Definition validationError (file : File) : option string :=
  if negb (isValidType file) then
    Some "Unsupported file format. Please upload PDF, PNG, JPG, or DWG."
  else if (100 * 1024 * 1024 <? size file)%N then
    Some "File is too large. Please upload a file smaller than 100MB."
  else None.

(** The [type] kept in [uploadedFile]: [file.type || 'application/octet-stream']. *)
Definition uploadedType (file : File) : string :=
  match type file with
  | EmptyString => "application/octet-stream"
  | t => t
  end.

(** [mimeTypeToSend] of [handleStartAnalysis] for the uploaded file. *)
Definition mimeTypeToSend (file : File) : string :=
  let ext := fileExtension (name file) in
  let isCad := String.eqb ext ".dwg" || String.eqb ext ".dxf" in
  if isCad then "image/vnd.dwg"
  else match uploadedType file with
       | EmptyString => "application/pdf"
       | t => t
       end.

End WithRuntime.

End App.

(** ** Vocabulary of the further statements *)

Section MoreVocabulary.

Context {R : JsRuntime}.

(** The rows one group takes in the Dim Sheet, with or without a category
    header in front. *)
Definition groupBlock (showCategoryHeader : bool) (group : GroupedItem.t) : list Row :=
  ((if showCategoryHeader
    then [[Str ""; Str (toUpperCase (GroupedItem.category group)); Str ""; Str ""]]
    else [])
   ++ [[Str ""; Str (GroupedItem.name group); Str ""; Str ""]]
   ++ flat_map (fun item => [logicRow item; valueRow item]) (GroupedItem.items group)
   ++ [subtotalRow group; []])%list.

(** Whether each group's category differs from that of the group before
    it, [lastCategory] being the category before the first group. *)
Fixpoint headerFlags (lastCategory : string) (groups : list GroupedItem.t) : list bool :=
  match groups with
  | [] => []
  | g :: rest =>
      negb (String.eqb (GroupedItem.category g) lastCategory)
      :: headerFlags (GroupedItem.category g) rest
  end.

(** The blocks of a list of groups, each under its flag. *)
Fixpoint groupBlocks (flags : list bool) (groups : list GroupedItem.t) : list Row :=
  match flags, groups with
  | f :: flags', g :: groups' => (groupBlock f g ++ groupBlocks flags' groups')%list
  | _, _ => []
  end.

(** A cell whose formula and value, if any, are a string and a number. *)
Definition plainCell (c : Cell) : bool :=
  match c with
  | FormulaObjectCell | ValueObjectCell => false
  | _ => true
  end.

(** The key a group is filed under, rebuilt from the group. *)
Definition groupKeyOf (g : GroupedItem.t) : string :=
  GroupedItem.name g ++ "|" ++ GroupedItem.unit g ++ "|" ++ GroupedItem.category g.

(** The key an item is filed under. *)
Definition itemKey (item : TakeoffItem.t) : string :=
  groupKey (fst (classify (TakeoffItem.description item))) item.

(** A group has a first member, and its name, unit and category are those
    of that member. *)
Definition headFields (g : GroupedItem.t) : Prop :=
  match GroupedItem.items g with
  | [] => False
  | e :: _ =>
      GroupedItem.name g = fst (classify (TakeoffItem.description (AxisItem.item e))) /\
      GroupedItem.unit g = TakeoffItem.unit (AxisItem.item e) /\
      GroupedItem.category g = TakeoffItem.category (AxisItem.item e)
  end.

(** A group holds, in input order, the items of [passing] filed under its
    key, each with the location label of its description. *)
Definition groupHolds (passing : list TakeoffItem.t) (g : GroupedItem.t) : Prop :=
  map AxisItem.item (GroupedItem.items g)
  = List.filter (fun it => String.eqb (itemKey it) (groupKeyOf g)) passing /\
  List.Forall
    (fun e => AxisItem.axis e = snd (classify (TakeoffItem.description (AxisItem.item e))))
    (GroupedItem.items g) /\
  headFields g.

(** The object [groups] after the passing items [passing]. *)
Definition groupsInv (passing : list TakeoffItem.t)
    (groups : list (string * GroupedItem.t)) : Prop :=
  List.NoDup (map fst groups) /\
  List.Forall (fun kg => fst kg = groupKeyOf (snd kg) /\ groupHolds passing (snd kg)) groups /\
  (forall it, In it passing -> In (itemKey it) (map fst groups)).

(** The characters a synthesized product can hold. *)
Definition isFormulaChar (c : ascii) : bool :=
  JsString.isDigit c || JsString.isSign c || (c =? ".")%char || (c =? "*")%char.

(** The section of the BOQ sheet for the rebar summaries: nothing when
    there are none. *)
Definition boqRebarSection (groupCount : nat) (rebarSummary : list RebarSummary.t)
    (unitPrices : gmap string Q) : list Row :=
  match rebarSummary with
  | [] => []
  | _ =>
      ([blankBoqRow; [Str "REBAR SUMMARY"; Str ""; Str ""; Str ""; Str ""]]
       ++ imap (fun j r => boqRebarRow unitPrices (groupCount + 3 + j) r) rebarSummary)%list
  end.

(** The quantities of the items of one category, in input order. *)
Definition quantitiesOf (category : string) (items : list TakeoffItem.t) : list Q :=
  map TakeoffItem.quantity
    (List.filter (fun it => String.eqb (TakeoffItem.category it) category) items).

(** What the accumulator of [chartData] holds after the items [seen]. *)
Definition chartInv (seen : list TakeoffItem.t) (acc : list ChartEntry.t) : Prop :=
  List.NoDup (map ChartEntry.name acc) /\
  (forall e, In e acc ->
     ChartEntry.count e = length (quantitiesOf (ChartEntry.name e) seen) /\
     (ChartEntry.value e == sumQ (quantitiesOf (ChartEntry.name e) seen))%Q) /\
  (forall it, In it seen -> In (TakeoffItem.category it) (map ChartEntry.name acc)) /\
  list_sum (map ChartEntry.count acc) = length seen /\
  (sumQ (map ChartEntry.value acc) == sumQ (map TakeoffItem.quantity seen))%Q.


End MoreVocabulary.

(** * Properties *)

(** ** Strings *)

Section StringFacts.

Import JsString.

Lemma consHead_nonempty c segs : consHead c segs <> [].
Proof. destruct segs; discriminate. Qed.

Lemma splitDash_nonempty s : splitDash s <> [].
Proof.
  destruct s as [|c s]; [discriminate|].
  assert (H : splitDash (String c s) = consHead c (splitDash s)
              \/ exists rest, splitDash (String c s) = "" :: rest).
  { destruct c as [[] [] [] [] [] [] [] []]; try (left; reflexivity).
    destruct s as [|c2 s2]; [left; reflexivity|].
    destruct c2 as [[] [] [] [] [] [] [] []]; try (left; reflexivity).
    destruct s2 as [|c3 s3]; [left; reflexivity|].
    destruct c3 as [[] [] [] [] [] [] [] []]; try (left; reflexivity).
    right; eexists; reflexivity. }
  destruct H as [-> | [rest ->]]; [apply consHead_nonempty | discriminate].
Qed.

(** The unfolding of [splitDash] at a non-empty string, by whether the
    delimiter starts there. *)
Lemma splitDash_step c s :
  splitDash (String c s) =
  if String.prefix " - " (String c s) then "" :: splitDash (dropChars 2 s)
  else consHead c (splitDash s).
Proof.
  destruct c as [[] [] [] [] [] [] [] []]; try reflexivity.
  destruct s as [|c2 s2]; [reflexivity|].
  destruct c2 as [[] [] [] [] [] [] [] []]; try reflexivity.
  destruct s2 as [|c3 s3]; [reflexivity|].
  destruct c3 as [[] [] [] [] [] [] [] []]; try reflexivity.
  destruct s3; reflexivity.
Qed.

Lemma join_cons sep p ps : ps <> [] -> join sep (p :: ps) = p ++ sep ++ join sep ps.
Proof. destruct ps; [congruence | reflexivity]. Qed.

Lemma join_consHead sep c segs :
  segs <> [] -> join sep (consHead c segs) = String c (join sep segs).
Proof.
  destruct segs as [|seg [|seg' rest]]; [congruence | reflexivity | reflexivity].
Qed.

Lemma prefix_cons_inv a s1 s2 :
  String.prefix (String a s1) s2 = true ->
  exists s2', s2 = String a s2' /\ String.prefix s1 s2' = true.
Proof.
  destruct s2 as [|b s2']; simpl; [discriminate|].
  destruct (Ascii.ascii_dec a b) as [->|]; [eauto | discriminate].
Qed.

Lemma prefix_dash_inv s :
  String.prefix " - " s = true -> s = " - " ++ dropChars 3 s.
Proof.
  intros H.
  apply prefix_cons_inv in H as (s1 & -> & H).
  apply prefix_cons_inv in H as (s2 & -> & H).
  apply prefix_cons_inv in H as (s3 & -> & _).
  reflexivity.
Qed.

Lemma dropChars_length_le n s : String.length (dropChars n s) <= String.length s.
Proof.
  revert s; induction n as [|n IH]; intros [|c s]; simpl; try lia.
  specialize (IH s); lia.
Qed.

(** Rejoining the segments with the delimiter gives the string back. *)
Lemma join_splitDash s : join " - " (splitDash s) = s.
Proof.
  remember (String.length s) as n eqn:Hn.
  revert s Hn; induction n as [n IH] using lt_wf_ind; intros s Hn.
  destruct s as [|c s]; [reflexivity|].
  rewrite splitDash_step.
  destruct (String.prefix " - " (String c s)) eqn:Hp.
  - apply prefix_cons_inv in Hp as (s1 & Heq & Hp). injection Heq as -> ->.
    apply prefix_cons_inv in Hp as (s2 & -> & Hp).
    apply prefix_cons_inv in Hp as (s3 & -> & _).
    rewrite join_cons by apply splitDash_nonempty.
    simpl dropChars.
    rewrite (IH (String.length s3)); [reflexivity | simpl in Hn; lia | reflexivity].
  - rewrite join_consHead by apply splitDash_nonempty.
    f_equal. apply (IH (String.length s)); [simpl in Hn; lia | reflexivity].
Qed.

End StringFacts.

(** ** The numeric pattern *)

Section NumberPattern.

Import JsString.

Lemma app_cons c (s t : string) : String c s ++ t = String c (s ++ t).
Proof. reflexivity. Qed.

Lemma string_app_assoc (a b c : string) : (a ++ b) ++ c = a ++ b ++ c.
Proof. induction a as [|x a IH]; [reflexivity|]. now rewrite !app_cons, IH. Qed.

Lemma string_app_nil_r (a : string) : a ++ "" = a.
Proof. induction a as [|x a IH]; [reflexivity|]. now rewrite app_cons, IH. Qed.

Lemma chars_app (a b : string) :
  list_ascii_of_string (a ++ b) = (list_ascii_of_string a ++ list_ascii_of_string b)%list.
Proof. induction a as [|x a IH]; [reflexivity|]. rewrite app_cons. simpl. now rewrite IH. Qed.

Lemma Digits_nil : Digits "".
Proof. constructor. Qed.

Lemma Digits_cons c s : isDigit c = true -> Digits s -> Digits (String c s).
Proof. intros Hc Hs. constructor; assumption. Qed.

Lemma digit_not_sign c : isDigit c = true -> isSign c = false.
Proof. destruct c as [[] [] [] [] [] [] [] []]; try discriminate; reflexivity. Qed.

Lemma spanDigits_spec s :
  s = fst (spanDigits s) ++ snd (spanDigits s) /\ Digits (fst (spanDigits s)).
Proof.
  induction s as [|c s [IHeq IHd]]; simpl.
  - split; [reflexivity | apply Digits_nil].
  - destruct (isDigit c) eqn:Hc.
    + destruct (spanDigits s) as [ds rest]; simpl in *. split.
      * now rewrite app_cons, <- IHeq.
      * now apply Digits_cons.
    + split; [reflexivity | apply Digits_nil].
Qed.

Lemma spanDigits_digit c s :
  isDigit c = true -> fst (spanDigits (String c s)) <> "".
Proof. intros Hc. simpl. rewrite Hc. destruct (spanDigits s). discriminate. Qed.

Lemma dot_case (r2 : string) :
  (exists r3, r2 = String "." r3) \/
  (forall (A : Type) (f : string -> A) (x : A),
      match r2 with String "." r3 => f r3 | _ => x end = x).
Proof.
  destruct r2 as [|c r3]; [right; reflexivity|].
  destruct c as [[] [] [] [] [] [] [] []]; try (right; reflexivity).
  left; eexists; reflexivity.
Qed.

Lemma unsignedHere_sound sign r1 m :
  (sign = "" \/ sign = "+" \/ sign = "-") ->
  unsignedHere sign r1 = Some m ->
  NumberToken m /\ exists post, sign ++ r1 = m ++ post.
Proof.
  intros Hsign. unfold unsignedHere.
  destruct (spanDigits_spec r1) as [Heq Hds].
  destruct (spanDigits r1) as [ds r2]; simpl in Heq, Hds.
  assert (Hbare : forall m, match ds with "" => None | _ => Some (sign ++ ds) end = Some m ->
                    NumberToken m /\ exists post, sign ++ r1 = m ++ post).
  { intros m' Hm. destruct ds as [|d ds']; [discriminate|]. injection Hm as <-. split.
    - exists sign, "", (String d ds'). repeat split; auto; discriminate.
    - exists r2. now rewrite Heq, string_app_assoc. }
  destruct (dot_case r2) as [[r3 ->] | Hother].
  - destruct (spanDigits_spec r3) as [Heq3 Hfs].
    destruct (fst (spanDigits r3)) as [|f fs'] eqn:Hf; [apply Hbare|].
    intros Hm; injection Hm as <-. split.
    + exists sign, (ds ++ "."), (String f fs').
      split; [now rewrite string_app_assoc|].
      split; [assumption|].
      split; [right; now exists ds|].
      split; [assumption | discriminate].
    + exists (snd (spanDigits r3)).
      rewrite !string_app_assoc, Heq. do 2 f_equal.
      rewrite app_cons. f_equal. exact Heq3.
  - rewrite Hother. apply Hbare.
Qed.

Lemma matchNumberHere_sound s m :
  matchNumberHere s = Some m -> NumberToken m /\ exists post, s = m ++ post.
Proof.
  unfold matchNumberHere. destruct s as [|c s'].
  - intros H. apply unsignedHere_sound in H; auto.
  - destruct (isSign c) eqn:Hc; intros H.
    + apply unsignedHere_sound in H; [exact H|].
      destruct c as [[] [] [] [] [] [] [] []]; try discriminate Hc; auto.
    + apply unsignedHere_sound in H; auto.
Qed.

Lemma matchNumber_unfold s :
  matchNumber s =
  match matchNumberHere s with
  | Some m => Some m
  | None => match s with
            | String _ s' => matchNumber s'
            | EmptyString => None
            end
  end.
Proof. destruct s; reflexivity. Qed.

(** Soundness: what [match] returns is a substring in the language. *)
Lemma matchNumber_sound s m :
  matchNumber s = Some m -> NumberToken m /\ exists pre post, s = pre ++ m ++ post.
Proof.
  induction s as [|c s IH]; rewrite matchNumber_unfold;
    destruct (matchNumberHere _) as [m'|] eqn:Hh; intros Hm.
  - injection Hm as ->. apply matchNumberHere_sound in Hh as [Ht [post Hp]].
    split; [assumption | now exists "", post].
  - discriminate Hm.
  - injection Hm as ->. apply matchNumberHere_sound in Hh as [Ht [post Hp]].
    split; [assumption | now exists "", post].
  - destruct (IH Hm) as [Ht (pre & post & ->)].
    split; [assumption | now exists (String c pre), post].
Qed.

Lemma matchNumberHere_digit c s :
  isDigit c = true -> matchNumberHere (String c s) <> None.
Proof.
  intros Hc. unfold matchNumberHere. rewrite (digit_not_sign c Hc).
  unfold unsignedHere. pose proof (spanDigits_digit c s Hc) as Hne.
  destruct (spanDigits (String c s)) as [ds r2]; simpl in Hne.
  destruct ds as [|d ds']; [congruence|].
  destruct (dot_case r2) as [[r3 ->] | Hother].
  - destruct (fst (spanDigits r3)); discriminate.
  - rewrite Hother. discriminate.
Qed.

(** Completeness: a segment with a digit always yields a match. *)
Lemma matchNumber_complete s :
  hasDigit s = true -> matchNumber s <> None.
Proof.
  unfold hasDigit. induction s as [|c s IH]; [discriminate|].
  rewrite matchNumber_unfold. simpl existsb.
  intros H. destruct (matchNumberHere (String c s)) eqn:Hh; [discriminate|].
  destruct (isDigit c) eqn:Hc.
  - now apply matchNumberHere_digit in Hh.
  - apply IH. exact H.
Qed.

Lemma Digits_hasDigit ds : Digits ds -> ds <> "" -> hasDigit ds = true.
Proof.
  destruct ds as [|c ds]; [congruence|]. intros Hd _.
  inversion Hd as [|? ? Hc _]; subst. unfold hasDigit; simpl. now rewrite Hc.
Qed.

Lemma hasDigit_app a b : hasDigit (a ++ b) = hasDigit a || hasDigit b.
Proof. unfold hasDigit. now rewrite chars_app, existsb_app. Qed.

(** A segment contains a matching substring exactly when it has a digit. *)
Lemma HasNumber_hasDigit seg : HasNumber seg <-> hasDigit seg = true.
Proof.
  split.
  - intros (pre & t & post & -> & sign & grp & ds & -> & _ & _ & Hd & Hne).
    rewrite !hasDigit_app, (Digits_hasDigit ds Hd Hne).
    now rewrite !orb_true_r.
  - unfold hasDigit. induction seg as [|c seg IH]; simpl; [discriminate|].
    destruct (isDigit c) eqn:Hc.
    + intros _. exists "", (String c ""), seg. split; [reflexivity|].
      exists "", "", (String c "").
      split; [reflexivity|]. split; [now left|]. split; [now left|].
      split; [apply Digits_cons; [assumption | apply Digits_nil] | discriminate].
    + intros H. destruct (IH H) as (pre & t & post & -> & Ht).
      now exists (String c pre), t, post.
Qed.

Lemma matchNumber_None_iff seg : matchNumber seg = None <-> ~ HasNumber seg.
Proof.
  rewrite HasNumber_hasDigit. split.
  - intros Hn Hd. now apply matchNumber_complete in Hd.
  - intros Hn. destruct (matchNumber seg) as [m|] eqn:Hm; [|reflexivity].
    exfalso. apply Hn, HasNumber_hasDigit.
    apply matchNumber_sound in Hm as [Ht (pre & post & ->)]. now exists pre, m, post.
Qed.

End NumberPattern.

(** ** Item classifier *)

(** C5, as stated, fails: a description that ends with the delimiter has
    three or more segments, the last of them empty, and its location is
    ["General"], not that last segment. *)
Lemma classify_last_segment_counterexample :
  ~ (forall d : string,
        (3 <= length (JsString.splitDash d))%nat ->
        snd (classify d) = List.last (JsString.splitDash d) "").
Proof.
  intros H. specialize (H "A - B - "). vm_compute in H.
  specialize (H (le_n 3)). discriminate H.
Qed.

(** C5 (amended): the classifier is total; the segments of a description
    are never none and rejoin to the description; with three or more
    segments the group name is all but the last rejoined and the location is
    the last segment, or ["General"] when that segment is empty; with two,
    the first and the second; with one, the description and ["General"]. *)
Theorem classify_spec (d : string) :
  let parts := JsString.splitDash d in
  (1 <= length parts)%nat /\
  JsString.join " - " parts = d /\
  ((3 <= length parts)%nat ->
   classify d =
     (JsString.join " - " (removelast parts),
      match List.last parts "" with
      | EmptyString => "General"
      | seg => seg
      end)) /\
  (length parts = 2%nat -> classify d = (nth 0 parts "", nth 1 parts "")) /\
  (length parts = 1%nat -> classify d = (d, "General")) /\
  classify "Grade Beam (GB1) - Concrete C30 - Grid A"
    = ("Grade Beam (GB1) - Concrete C30", "Grid A").
Proof.
  intros parts. pose proof (splitDash_nonempty d) as Hne. fold parts in Hne.
  split; [destruct parts; [congruence | simpl; lia]|].
  split; [apply join_splitDash|].
  unfold classify. fold parts.
  split; [|split; [|split]].
  - intros H. apply Nat.leb_le in H. now rewrite H.
  - intros H. rewrite H. reflexivity.
  - intros H. rewrite H. reflexivity.
  - reflexivity.
Qed.

(** ** Dimension formula synthesis *)

Section Synthesis.

Context {R : JsRuntime}.

Lemma collectMatches_omap rawParts :
  collectMatches rawParts = omap JsString.matchNumber rawParts.
Proof.
  induction rawParts as [|part rest IH]; [reflexivity|]. simpl.
  destruct (JsString.matchNumber part); now rewrite IH.
Qed.

Lemma collectMatches_nil rawParts :
  (forall seg, In seg rawParts -> ~ HasNumber seg) -> collectMatches rawParts = [].
Proof.
  induction rawParts as [|part rest IH]; intros H; [reflexivity|]. simpl.
  rewrite (proj2 (matchNumber_None_iff part) (H part (or_introl eq_refl))).
  apply IH. intros seg Hin. apply H. now right.
Qed.

Lemma collectMatches_cons rawParts :
  (exists seg, In seg rawParts /\ HasNumber seg) -> collectMatches rawParts <> [].
Proof.
  induction rawParts as [|part rest IH]; intros (seg & Hin & Hn); [destruct Hin|]. simpl.
  destruct (JsString.matchNumber part) eqn:Hm; [discriminate|].
  apply IH. exists seg. split; [|assumption].
  destruct Hin as [->|Hin]; [|assumption].
  now apply matchNumber_None_iff in Hm.
Qed.

Lemma collectMatches_tokens rawParts : Forall NumberToken (collectMatches rawParts).
Proof.
  induction rawParts as [|part rest IH]; [constructor|]. simpl.
  destruct (JsString.matchNumber part) eqn:Hm; [|assumption].
  constructor; [|assumption]. now apply matchNumber_sound in Hm.
Qed.

Lemma timesingStr_cases (m : Q) :
  timesingStr m =
  if Qeq_bool m 0 || Qeq_bool m 1 then "" else numberToString m ++ "*".
Proof.
  unfold timesingStr, timesingVal.
  destruct (Qeq_bool m 0) eqn:H0; simpl; [reflexivity|].
  now destruct (Qeq_bool m 1).
Qed.

End Synthesis.

(** C4: when no segment of the dimension expression contains a substring
    matching the signed-decimal pattern, the value row of the Dim Sheet
    carries the precomputed quantity as a plain number cell, with a value
    and no formula; so it is for the empty expression and for ["-"]. *)
Theorem valueRow_fallback {R : JsRuntime} (item : AxisItem.t) :
  (forall seg, In seg (JsString.splitDim (TakeoffItem.dimension (AxisItem.item item))) ->
               ~ HasNumber seg) ->
  valueRow item
    = [Str ""; Str ""; Str ""; NumberCell (TakeoffItem.quantity (AxisItem.item item))] /\
  (forall c, List.last (valueRow item) (Str "") = c ->
             cellValue c = Some (TakeoffItem.quantity (AxisItem.item item)) /\
             cellFormula c = None) /\
  (forall m q, quantityCell "" m q = NumberCell q /\ quantityCell "-" m q = NumberCell q).
Proof.
  intros H.
  assert (Hrow : valueRow item
    = [Str ""; Str ""; Str ""; NumberCell (TakeoffItem.quantity (AxisItem.item item))]).
  { unfold valueRow, quantityCell, sanitizedParts. now rewrite (collectMatches_nil _ H). }
  split; [exact Hrow|]. split.
  - intros c <-. rewrite Hrow. split; reflexivity.
  - intros m q. split; reflexivity.
Qed.

Lemma valueRow_fallback_witness :
  let item := AxisItem.mk (TakeoffItem.mk "7" "Door D1" 2 "-" 4 "nr" "Openings" "High") "General" in
  valueRow (R := Reference.runtime) item = [Str ""; Str ""; Str ""; NumberCell 4].
Proof.
  intros item.
  apply (@valueRow_fallback Reference.runtime item).
  intros seg Hin. rewrite HasNumber_hasDigit.
  destruct Hin as [<-|[]]. vm_compute. discriminate.
Defined.

(** C3, as stated, fails: a multiplier of 0 differs from 1, yet the
    formula carries no multiplier, since [item.timesing || 1] reads 0 as 1. *)
Lemma dimFormula_zero_multiplier_counterexample :
  ~ (forall (R : JsRuntime) (dimension : string) (m q : Q),
        (exists seg, In seg (JsString.splitDim dimension) /\ HasNumber seg) ->
        quantityCell dimension m q =
        FormulaValueCell
          ((if Qeq_bool m 1 then "" else numberToString m ++ "*")
             ++ JsString.join "*" (sanitizedParts dimension)) q).
Proof.
  intros H.
  specialize (H Reference.runtime "15.00 x 0.60 x 1.20" 0%Q (108 # 10)).
  assert (Hseg : exists seg, In seg (JsString.splitDim "15.00 x 0.60 x 1.20") /\ HasNumber seg).
  { exists "15.00 ". split; [now left|]. apply HasNumber_hasDigit. reflexivity. }
  specialize (H Hseg). vm_compute in H. discriminate H.
Qed.

(** C3 (amended): when some segment of the dimension expression contains
    a substring matching the pattern, the quantity cell is a formula cell
    with cached value [q]; its formula is the multiplier followed by ["*"]
    when [m] is neither 1 nor 0 (0 is read as 1), then the tokens joined by
    ["*"]; the tokens are the matches of the segments that have one, in
    left-to-right order, each in the language of the pattern. *)
Theorem dimFormula_spec {R : JsRuntime} (dimension : string) (m q : Q) :
  (exists seg, In seg (JsString.splitDim dimension) /\ HasNumber seg) ->
  quantityCell dimension m q =
    FormulaValueCell
      ((if Qeq_bool m 0 || Qeq_bool m 1 then "" else numberToString m ++ "*")
         ++ JsString.join "*" (sanitizedParts dimension)) q /\
  sanitizedParts dimension = omap JsString.matchNumber (JsString.splitDim dimension) /\
  sanitizedParts dimension <> [] /\
  Forall NumberToken (sanitizedParts dimension).
Proof.
  intros H. pose proof (collectMatches_cons _ H) as Hne.
  split; [|split; [apply collectMatches_omap | split; [exact Hne | apply collectMatches_tokens]]].
  unfold quantityCell, sanitizedParts in *.
  destruct (collectMatches (JsString.splitDim dimension)) as [|t ts]; [congruence|].
  simpl Nat.ltb. cbv iota. now rewrite timesingStr_cases.
Qed.

Lemma dimFormula_spec_witness :
  quantityCell (R := Reference.runtime) "15.00 x 0.60 x 1.20" 1 (108 # 10)
    = FormulaValueCell "15.00*0.60*1.20" (108 # 10) /\
  sanitizedParts "15.00 x 0.60 x 1.20" = ["15.00"; "0.60"; "1.20"].
Proof.
  assert (Hseg : exists seg, In seg (JsString.splitDim "15.00 x 0.60 x 1.20") /\ HasNumber seg).
  { exists "15.00 ". split; [now left|]. apply HasNumber_hasDigit. reflexivity. }
  destruct (@dimFormula_spec Reference.runtime "15.00 x 0.60 x 1.20" 1 (108 # 10) Hseg)
    as (Hcell & Htok & _).
  split; [exact Hcell | exact Htok].
Defined.

(** ** The stable sort *)

Section SortFacts.

Context {A : Type} (cmp : A -> A -> Z).

Import JsArray.

Lemma insertSorted_perm x l : Permutation (insertSorted cmp x l) (x :: l).
Proof.
  induction l as [|y l IH]; simpl; [reflexivity|].
  destruct (cmp x y <=? 0)%Z; [reflexivity|].
  rewrite IH. apply perm_swap.
Qed.

Lemma sort_perm l : Permutation (sort cmp l) l.
Proof.
  induction l as [|x l IH]; simpl; [reflexivity|].
  rewrite insertSorted_perm. now constructor.
Qed.

(** The comparator is consistent: it decides a total preorder. *)
Hypothesis cmp_total : forall a b, (0 < cmp a b)%Z -> (cmp b a <= 0)%Z.
Hypothesis cmp_trans : forall a b c, (cmp a b <= 0)%Z -> (cmp b c <= 0)%Z -> (cmp a c <= 0)%Z.

Let le (a b : A) : Prop := (cmp a b <= 0)%Z.

Lemma insertSorted_sorted x l :
  StronglySorted le l -> StronglySorted le (insertSorted cmp x l).
Proof.
  induction l as [|y l IH]; intros Hs; simpl.
  - constructor; constructor.
  - apply StronglySorted_inv in Hs as [Hs Hy].
    destruct (cmp x y <=? 0)%Z eqn:Hxy.
    + apply Z.leb_le in Hxy. constructor; [now constructor|].
      constructor; [exact Hxy|].
      eapply Forall_impl; [exact Hy|]. intros z Hz. now apply (cmp_trans x y z).
    + apply Z.leb_gt in Hxy. constructor; [now apply IH|].
      eapply Permutation_Forall; [symmetry; apply insertSorted_perm|].
      constructor; [now apply cmp_total | exact Hy].
Qed.

Lemma sort_sorted l : StronglySorted le (sort cmp l).
Proof.
  induction l as [|x l IH]; simpl; [constructor | now apply insertSorted_sorted].
Qed.

(** Elements the comparator does not tell apart from [g]. *)
Let tied (g x : A) : bool := (cmp g x <=? 0)%Z && (cmp x g <=? 0)%Z.

Lemma insertSorted_stable g x l :
  List.filter (tied g) (insertSorted cmp x l) = List.filter (tied g) (x :: l).
Proof.
  induction l as [|y l IH]; [reflexivity|].
  cbn [insertSorted]. destruct (cmp x y <=? 0)%Z eqn:Hxy; [reflexivity|].
  apply Z.leb_gt in Hxy.
  cbn [List.filter] in *. rewrite IH.
  destruct (tied g x) eqn:Hx, (tied g y) eqn:Hy; try reflexivity.
  exfalso. unfold tied in Hx, Hy.
  apply andb_true_iff in Hx as [Hgx Hxg], Hy as [Hgy Hyg].
  apply Z.leb_le in Hgx, Hxg, Hgy, Hyg.
  pose proof (cmp_trans x g y Hxg Hgy). lia.
Qed.

(** Stability: the sort keeps tied elements in their original order. *)
Lemma sort_stable g l : List.filter (tied g) (sort cmp l) = List.filter (tied g) l.
Proof.
  induction l as [|x l IH]; [reflexivity|].
  cbn [sort fold_right]. rewrite insertSorted_stable.
  cbn [List.filter]. fold (sort cmp l). now rewrite IH.
Qed.

End SortFacts.

Lemma indexOf_range arr x :
  JsArray.indexOf arr x = (-1)%Z \/
  (0 <= JsArray.indexOf arr x < Z.of_nat (length arr))%Z.
Proof.
  induction arr as [|y arr IH]; [now left|].
  cbn [JsArray.indexOf length]. destruct (String.eqb y x); [right; lia|].
  destruct IH as [-> | IH]; [now left|].
  destruct (JsArray.indexOf arr x =? -1)%Z eqn:He; [now left | right; lia].
Qed.

Lemma indexOf_absent arr x :
  JsArray.indexOf arr x = (-1)%Z <-> existsb (String.eqb x) arr = false.
Proof.
  induction arr as [|y arr IH]; [easy|].
  cbn [JsArray.indexOf existsb]. rewrite (String.eqb_sym x y).
  destruct (String.eqb y x); [easy|]. cbn [orb]. rewrite <- IH.
  destruct (indexOf_range arr x) as [-> | Hr]; [easy|].
  destruct (JsArray.indexOf arr x =? -1)%Z eqn:He; [apply Z.eqb_eq in He|]; lia.
Qed.

(** ** Group ordering *)

Section GroupOrder.

Context {R : JsRuntime}.

Lemma categoryRank_range c :
  categoryRank c = 999%Z \/ (0 <= categoryRank c < 8)%Z.
Proof.
  unfold categoryRank. pose proof (indexOf_range CATEGORY_ORDER c) as Hr.
  change (Z.of_nat (length CATEGORY_ORDER)) with 8%Z in Hr.
  destruct (_ =? _)%Z eqn:He; [now left|]. apply Z.eqb_neq in He. right; lia.
Qed.

Lemma categoryRank_known g :
  knownCategory g = true <-> (categoryRank (GroupedItem.category g) < 999)%Z.
Proof.
  unfold knownCategory, categoryRank.
  pose proof (indexOf_absent CATEGORY_ORDER (GroupedItem.category g)) as Ha.
  pose proof (indexOf_range CATEGORY_ORDER (GroupedItem.category g)) as Hr.
  change (Z.of_nat (length CATEGORY_ORDER)) with 8%Z in Hr.
  set (i := JsArray.indexOf CATEGORY_ORDER (GroupedItem.category g)) in *.
  set (e := existsb (String.eqb (GroupedItem.category g)) CATEGORY_ORDER) in *.
  destruct (i =? -1)%Z eqn:He.
  - apply Z.eqb_eq in He. destruct Ha as [Ha _]. rewrite (Ha He). split; [discriminate | lia].
  - apply Z.eqb_neq in He. destruct e; [split; [lia | reflexivity]|].
    destruct Ha as [_ Ha]. now specialize (Ha eq_refl).
Qed.

(** The comparator orders by the pair (category rank, name). *)
Lemma compareGroups_rank a b :
  compareGroups a b =
  if negb (categoryRank (GroupedItem.category a) =? categoryRank (GroupedItem.category b))%Z
  then (categoryRank (GroupedItem.category a) - categoryRank (GroupedItem.category b))%Z
  else localeCompare (GroupedItem.name a) (GroupedItem.name b).
Proof.
  unfold compareGroups, categoryRank.
  pose proof (indexOf_range CATEGORY_ORDER (GroupedItem.category a)) as Ha.
  pose proof (indexOf_range CATEGORY_ORDER (GroupedItem.category b)) as Hb.
  change (Z.of_nat (length CATEGORY_ORDER)) with 8%Z in Ha, Hb.
  set (i := JsArray.indexOf CATEGORY_ORDER (GroupedItem.category a)) in *.
  set (j := JsArray.indexOf CATEGORY_ORDER (GroupedItem.category b)) in *.
  destruct (i =? -1)%Z eqn:Ei, (j =? -1)%Z eqn:Ej;
    destruct (i =? j)%Z eqn:Eij; cbn [negb];
    repeat match goal with
           | H : (_ =? _)%Z = true |- _ => apply Z.eqb_eq in H
           | H : (_ =? _)%Z = false |- _ => apply Z.eqb_neq in H
           end;
    try lia;
    repeat match goal with
           | |- context [(?x =? ?y)%Z] =>
               let E := fresh in
               destruct (x =? y)%Z eqn:E;
               [apply Z.eqb_eq in E | apply Z.eqb_neq in E]
           end;
    cbn [negb]; try reflexivity; try lia.
Qed.

Lemma compareGroups_le a b : (compareGroups a b <= 0)%Z <-> groupOrder a b.
Proof.
  rewrite compareGroups_rank. unfold groupOrder.
  destruct (_ =? _)%Z eqn:E; cbn [negb].
  - apply Z.eqb_eq in E. split; [intros; right; auto | intros [?|[_ ?]]; [lia | auto]].
  - apply Z.eqb_neq in E. split; [intros; left; lia | intros [?|[? _]]; lia].
Qed.

(** Within one category the comparator is the comparison of the names. *)
Lemma compareGroups_same_category a b :
  GroupedItem.category a = GroupedItem.category b ->
  compareGroups a b = localeCompare (GroupedItem.name a) (GroupedItem.name b).
Proof. intros E. unfold compareGroups. now rewrite E, Z.eqb_refl. Qed.

Lemma tiedInCategory_tiedWith g x :
  tiedInCategory g x
  = String.eqb (GroupedItem.category x) (GroupedItem.category g) && tiedWith g x.
Proof.
  unfold tiedInCategory, tiedWith.
  destruct (String.eqb (GroupedItem.category x) (GroupedItem.category g)) eqn:E; [|reflexivity].
  apply String.eqb_eq in E.
  rewrite (compareGroups_same_category g x) by now symmetry.
  now rewrite (compareGroups_same_category x g) by exact E.
Qed.

Lemma filter_andb {A : Type} (f t : A -> bool) (l : list A) :
  List.filter (fun x => f x && t x) l = List.filter f (List.filter t l).
Proof.
  induction l as [|x l IH]; [reflexivity|]. cbn [List.filter].
  destruct (t x) eqn:Ht.
  - rewrite andb_true_r. cbn [List.filter]. destruct (f x); now rewrite IH.
  - rewrite andb_false_r. exact IH.
Qed.

Context {L : LawfulCollation R}.

Lemma compareGroups_total a b : (0 < compareGroups a b)%Z -> (compareGroups b a <= 0)%Z.
Proof.
  rewrite !compareGroups_rank. rewrite (Z.eqb_sym (categoryRank (GroupedItem.category b))).
  destruct (_ =? _)%Z eqn:E; cbn [negb]; [apply localeCompare_total | lia].
Qed.

Lemma compareGroups_trans a b c :
  (compareGroups a b <= 0)%Z -> (compareGroups b c <= 0)%Z -> (compareGroups a c <= 0)%Z.
Proof.
  rewrite !compareGroups_le. unfold groupOrder.
  intros [H1 | [H1 H1']] [H2 | [H2 H2']]; try (left; lia).
  right. split; [lia|]. eapply localeCompare_trans; eassumption.
Qed.

End GroupOrder.

(** The reference collation is lawful. *)
Lemma codeUnitCompare_le a b :
  (Reference.codeUnitCompare a b <= 0)%Z <-> String.le a b.
Proof.
  unfold Reference.codeUnitCompare, String.le, String.leb.
  destruct (String.compare a b); simpl; split; intros H; try lia; try exact I; contradiction.
Qed.

Lemma reference_lawful : LawfulCollation Reference.runtime.
Proof.
  split; cbn [localeCompare Reference.runtime].
  - intros a b. unfold Reference.codeUnitCompare.
    rewrite (String.compare_antisym b a). destruct (String.compare a b); simpl; lia.
  - intros a b c. rewrite !codeUnitCompare_le. apply transitivity.
Qed.

(** C6, as stated, fails: two groups of one and the same category that is
    absent from the table come out ordered by name, not in encounter
    order. *)
Lemma groupedData_unlisted_order_counterexample :
  map GroupedItem.category (collectGroups (R := Reference.runtime) Sample.unlisted "" "All")
  = ["Temporary Works"; "Temporary Works"] /\
  List.filter (fun g => negb (knownCategory g))
    (groupedData (R := Reference.runtime) Sample.unlisted "" "All")
  <> List.filter (fun g => negb (knownCategory g))
       (collectGroups (R := Reference.runtime) Sample.unlisted "" "All").
Proof. split; [reflexivity|]. vm_compute. discriminate. Qed.

(** C6 (amended): the output is a rearrangement of the groups in encounter
    order in which category priority (position in the canonical table,
    unlisted categories last) never decreases, so that a group of a listed
    category never follows one of an unlisted category and ["Sub Structure"]
    precedes ["Painting"]; groups of one and the same category, listed or
    not, are ordered by name under the collation; and groups of one category
    whose names tie keep their encounter order. *)
Theorem groupedData_order {R : JsRuntime} {L : LawfulCollation R}
    (items : list TakeoffItem.t) (searchTerm categoryFilter : string) :
  let encounter := collectGroups items searchTerm categoryFilter in
  let out := groupedData items searchTerm categoryFilter in
  Permutation encounter out /\
  (forall l1 a l2 b l3, out = (l1 ++ a :: l2 ++ b :: l3)%list ->
     (categoryRank (GroupedItem.category a) <= categoryRank (GroupedItem.category b))%Z /\
     (knownCategory b = true -> knownCategory a = true) /\
     (GroupedItem.category a = GroupedItem.category b ->
      (localeCompare (GroupedItem.name a) (GroupedItem.name b) <= 0)%Z) /\
     ~ (GroupedItem.category a = "Painting" /\ GroupedItem.category b = "Sub Structure")) /\
  (forall g, List.filter (tiedInCategory g) out = List.filter (tiedInCategory g) encounter).
Proof.
  intros encounter out.
  assert (Hsorted : StronglySorted groupOrder out).
  { unfold out, groupedData.
    pose proof (sort_sorted compareGroups compareGroups_total compareGroups_trans encounter) as Hs.
    clear -Hs. fold encounter. induction Hs as [|x l Hs IH Hx]; constructor; [assumption|].
    eapply Forall_impl; [exact Hx|]. intros y Hy. now apply compareGroups_le. }
  split; [symmetry; apply sort_perm|].
  split.
  - intros l1 a l2 b l3 Hout. rewrite Hout in Hsorted.
    assert (Hab : groupOrder a b).
    { clear -Hsorted. induction l1 as [|x l1 IH]; simpl in Hsorted.
      - apply StronglySorted_inv in Hsorted as [_ Ha].
        rewrite List.Forall_forall in Ha. apply Ha. apply in_or_app. right. now left.
      - apply StronglySorted_inv in Hsorted as [Hs _]. now apply IH. }
    assert (Hle : (categoryRank (GroupedItem.category a)
                   <= categoryRank (GroupedItem.category b))%Z).
    { destruct Hab as [?|[? _]]; lia. }
    split; [exact Hle|]. split; [|split].
    + rewrite !categoryRank_known. lia.
    + intros E. destruct Hab as [Hlt | [_ Hn]]; [|exact Hn]. rewrite E in Hlt. lia.
    + intros [Ea Eb]. rewrite Ea, Eb in Hle. vm_compute in Hle. now apply Hle.
  - intros g.
    rewrite !(List.filter_ext _ _ (tiedInCategory_tiedWith g)), !filter_andb.
    f_equal. apply (sort_stable compareGroups compareGroups_trans).
Qed.

Lemma groupedData_order_witness :
  Permutation
    (collectGroups (R := Reference.runtime) (Sample.items ++ Sample.unlisted) "" "All")
    (groupedData (R := Reference.runtime) (Sample.items ++ Sample.unlisted) "" "All") /\
  map GroupedItem.name
    (groupedData (R := Reference.runtime) (Sample.items ++ Sample.unlisted) "" "All")
  = ["Grade Beam (GB1) - Concrete C30"; "Wall - Paint"; "HOARDING"; "SCAFFOLD"].
Proof.
  split; [|reflexivity].
  exact (proj1 (@groupedData_order Reference.runtime reference_lawful
                  (Sample.items ++ Sample.unlisted) "" "All")).
Defined.

(** ** Sums *)

Lemma fold_left_Qplus_sumQ (l : list Q) (a : Q) : (fold_left Qplus l a == a + sumQ l)%Q.
Proof.
  revert a; induction l as [|x l IH]; intros a; simpl.
  - now rewrite Qplus_0_r.
  - rewrite IH. now rewrite Qplus_assoc.
Qed.

Lemma sumQ_app (l1 l2 : list Q) : (sumQ (l1 ++ l2) == sumQ l1 + sumQ l2)%Q.
Proof.
  induction l1 as [|x l1 IH]; simpl.
  - now rewrite Qplus_0_l.
  - rewrite IH. now rewrite Qplus_assoc.
Qed.

Lemma sumQ_perm (l1 l2 : list Q) : Permutation l1 l2 -> (sumQ l1 == sumQ l2)%Q.
Proof.
  induction 1 as [|x l1 l2 _ IH|x y l|l1 l2 l3 _ IH1 _ IH2]; simpl.
  - reflexivity.
  - now rewrite IH.
  - rewrite !Qplus_assoc. now rewrite (Qplus_comm y x).
  - now rewrite IH1.
Qed.

(** ** Grouping and subtotals *)

Section Grouping.

Context {R : JsRuntime}.

Lemma pushItem_totalIsFold e g : totalIsFold g -> totalIsFold (pushItem e g).
Proof.
  unfold totalIsFold. intros H. cbn [pushItem GroupedItem.totalQuantity GroupedItem.items].
  rewrite map_app, fold_left_app, <- H. reflexivity.
Qed.

Lemma addToGroups_totalIsFold key fresh e groups :
  totalIsFold fresh ->
  Forall (fun kg => totalIsFold (snd kg)) groups ->
  Forall (fun kg => totalIsFold (snd kg)) (addToGroups key fresh e groups).
Proof.
  intros Hf. induction 1 as [|[k g] rest Hg Hrest IH]; cbn [addToGroups].
  - constructor; [now apply pushItem_totalIsFold | constructor].
  - destruct (String.eqb k key).
    + constructor; [now apply pushItem_totalIsFold | assumption].
    + constructor; assumption.
Qed.

Lemma addToGroups_members key fresh e groups :
  GroupedItem.items fresh = [] ->
  Permutation
    (flat_map (fun kg => GroupedItem.items (snd kg)) (addToGroups key fresh e groups))
    (e :: flat_map (fun kg => GroupedItem.items (snd kg)) groups).
Proof.
  intros Hf. induction groups as [|[k g] rest IH]; cbn [addToGroups].
  - cbn. rewrite Hf. reflexivity.
  - destruct (String.eqb k key); cbn [flat_map snd pushItem GroupedItem.items].
    + rewrite <- app_assoc. cbn [app]. symmetry. apply Permutation_middle.
    + rewrite IH. symmetry. apply Permutation_middle.
Qed.

Lemma groupStep_inv searchTerm categoryFilter groups item seen :
  Forall (fun kg => totalIsFold (snd kg)) groups ->
  Permutation
    (map AxisItem.item (flat_map (fun kg => GroupedItem.items (snd kg)) groups))
    (List.filter (passesFilter searchTerm categoryFilter) seen) ->
  let groups' := groupStep searchTerm categoryFilter groups item in
  Forall (fun kg => totalIsFold (snd kg)) groups' /\
  Permutation
    (map AxisItem.item (flat_map (fun kg => GroupedItem.items (snd kg)) groups'))
    (List.filter (passesFilter searchTerm categoryFilter) (seen ++ [item])).
Proof.
  intros Hok Hperm groups'. subst groups'. unfold groupStep.
  rewrite List.filter_app. cbn [List.filter].
  destruct (passesFilter searchTerm categoryFilter item).
  - destruct (classify (TakeoffItem.description item)) as [groupName axis].
    split.
    + apply addToGroups_totalIsFold; [reflexivity | assumption].
    + rewrite addToGroups_members by reflexivity.
      cbn [map AxisItem.item]. rewrite Hperm. apply Permutation_cons_append.
  - rewrite app_nil_r. split; assumption.
Qed.

Lemma groupFold_inv searchTerm categoryFilter items :
  forall groups seen,
    Forall (fun kg => totalIsFold (snd kg)) groups ->
    Permutation
      (map AxisItem.item (flat_map (fun kg => GroupedItem.items (snd kg)) groups))
      (List.filter (passesFilter searchTerm categoryFilter) seen) ->
    let groups' := fold_left (groupStep searchTerm categoryFilter) items groups in
    Forall (fun kg => totalIsFold (snd kg)) groups' /\
    Permutation
      (map AxisItem.item (flat_map (fun kg => GroupedItem.items (snd kg)) groups'))
      (List.filter (passesFilter searchTerm categoryFilter) (seen ++ items)).
Proof.
  induction items as [|item items IH]; intros groups seen Hok Hperm; cbn [fold_left].
  - rewrite app_nil_r. split; assumption.
  - destruct (groupStep_inv searchTerm categoryFilter groups item seen Hok Hperm) as [Hok' Hperm'].
    specialize (IH _ _ Hok' Hperm'). rewrite <- app_assoc in IH. exact IH.
Qed.

Lemma sumQ_totals (groups : list GroupedItem.t) :
  Forall totalIsFold groups ->
  (sumQ (map GroupedItem.totalQuantity groups)
   == sumQ (map memberQuantity (flat_map GroupedItem.items groups)))%Q.
Proof.
  induction 1 as [|g groups Hg _ IH]; [reflexivity|].
  cbn [map flat_map sumQ fold_right]. rewrite map_app, sumQ_app.
  fold (sumQ (map GroupedItem.totalQuantity groups)). rewrite IH, Hg.
  rewrite fold_left_Qplus_sumQ. now rewrite Qplus_0_l.
Qed.

End Grouping.

(** C2: the totals of the groups add up to the quantities of the items that
    pass the search and the category filter; each group's total is the sum
    of its members' quantities (it is the very left-to-right fold the code
    performs); and the members of the groups are exactly the passing items. *)
Theorem groupedData_totals {R : JsRuntime}
    (items : list TakeoffItem.t) (searchTerm categoryFilter : string) :
  let out := groupedData items searchTerm categoryFilter in
  let passing := List.filter (passesFilter searchTerm categoryFilter) items in
  (sumQ (map GroupedItem.totalQuantity out) == sumQ (map TakeoffItem.quantity passing))%Q /\
  Forall (fun g =>
            GroupedItem.totalQuantity g
            = fold_left Qplus (map memberQuantity (GroupedItem.items g)) 0%Q /\
            (GroupedItem.totalQuantity g == sumQ (map memberQuantity (GroupedItem.items g)))%Q)
    out /\
  Permutation (map AxisItem.item (flat_map GroupedItem.items out)) passing /\
  (forall item, passesFilter searchTerm categoryFilter item =
     JsString.includes (toLowerCase searchTerm) (toLowerCase (TakeoffItem.description item))
     && (String.eqb categoryFilter "All" || String.eqb (TakeoffItem.category item) categoryFilter)).
Proof.
  intros out passing.
  destruct (groupFold_inv searchTerm categoryFilter items [] [] (List.Forall_nil _)
              (Permutation_refl _)) as [Hok Hperm].
  cbn [app] in Hperm. fold passing in Hperm.
  set (groups := fold_left (groupStep searchTerm categoryFilter) items []) in *.
  assert (Hsort : Permutation out (map snd groups)) by apply sort_perm.
  assert (Hok' : Forall totalIsFold out).
  { eapply Permutation_Forall; [symmetry; exact Hsort|].
    clear -Hok. induction Hok; constructor; assumption. }
  assert (Hmem : Permutation (map AxisItem.item (flat_map GroupedItem.items out)) passing).
  { rewrite <- Hperm. apply Permutation_map.
    rewrite (Permutation_flat_map GroupedItem.items Hsort). rewrite flat_map_concat_map.
    rewrite map_map. rewrite <- flat_map_concat_map. reflexivity. }
  split; [|split; [|split; [exact Hmem | reflexivity]]].
  - rewrite (sumQ_totals out Hok').
    apply sumQ_perm. unfold memberQuantity.
    rewrite <- (map_map AxisItem.item TakeoffItem.quantity).
    now apply Permutation_map.
  - eapply Forall_impl; [exact Hok'|]. intros g Hg. split; [exact Hg|].
    rewrite Hg. rewrite fold_left_Qplus_sumQ. now rewrite Qplus_0_l.
Qed.

(** ** Rebar aggregator *)

Section Rebar.

Context {R : JsRuntime}.

Lemma mapGet_mapSet k v m t :
  mapGet t (mapSet k v m) = if String.eqb k t then Some v else mapGet t m.
Proof.
  induction m as [|[k' w] rest IH]; cbn [mapSet mapGet]; [reflexivity|].
  destruct (String.eqb k' k) eqn:Hk; cbn [mapGet].
  - apply String.eqb_eq in Hk as ->. now destruct (String.eqb k t).
  - rewrite IH. destruct (String.eqb k' t) eqn:Ht; [|reflexivity].
    apply String.eqb_eq in Ht as ->. now rewrite String.eqb_sym, Hk.
Qed.

Lemma mapSet_keys k v m :
  map fst (mapSet k v m)
  = match mapGet k m with
    | Some _ => map fst m
    | None => (map fst m ++ [k])%list
    end.
Proof.
  induction m as [|[k' w] rest IH]; cbn [mapSet mapGet map fst app]; [reflexivity|].
  destruct (String.eqb k' k); cbn [map fst]; [reflexivity|].
  rewrite IH. now destruct (mapGet k rest).
Qed.

Lemma mapGet_None_keys k m : mapGet k m = None -> ~ In k (map fst m).
Proof.
  induction m as [|[k' w] rest IH]; cbn [mapGet map fst]; [intros _ []|].
  destruct (String.eqb k' k) eqn:Hk; [discriminate|]. apply String.eqb_neq in Hk.
  intros H [E|Hin]; [congruence | now apply IH].
Qed.

Lemma mapGet_keys k m : mapGet k m <> None <-> In k (map fst m).
Proof.
  induction m as [|[k' w] rest IH]; cbn [mapGet map fst In]; [split; [congruence | intros []]|].
  destruct (String.eqb k' k) eqn:Hk.
  - apply String.eqb_eq in Hk. split; [now left | discriminate].
  - apply String.eqb_neq in Hk. rewrite IH. split; [now right | intros [?|?]; [congruence | assumption]].
Qed.

Lemma mapGet_In k v m : NoDup (map fst m) -> In (k, v) m -> mapGet k m = Some v.
Proof.
  induction m as [|[k' w] rest IH]; cbn [mapGet map fst]; [intros _ []|].
  intros Hnd [E|Hin]; apply NoDup_cons in Hnd as [Hk' Hnd].
  - injection E as -> ->. now rewrite String.eqb_refl.
  - destruct (String.eqb k' k) eqn:Hk; [|now apply IH].
    apply String.eqb_eq in Hk as ->. exfalso. apply Hk'. apply list_elem_of_In.
    change k with (fst (k, v)). now apply in_map.
Qed.

Lemma weightsOf_snoc t seen r :
  weightsOf t (seen ++ [r])
  = (weightsOf t seen
       ++ if String.eqb (RebarItem.barType r) t then [RebarItem.totalWeight r] else [])%list.
Proof.
  unfold weightsOf. rewrite List.filter_app, map_app. cbn [List.filter].
  now destruct (String.eqb (RebarItem.barType r) t).
Qed.

Lemma fold_snoc_Some (ws : list Q) (x : Q) :
  match (ws ++ [x])%list with
  | [] => None
  | l => Some (fold_left Qplus l 0%Q)
  end = Some (fold_left Qplus ws 0 + x)%Q.
Proof.
  change (fold_left Qplus ws 0 + x)%Q with (fold_left Qplus [x] (fold_left Qplus ws 0%Q)).
  rewrite <- fold_left_app. now destruct ws.
Qed.

Lemma summaryStep_inv m seen r :
  (forall t, mapGet t m = weightSoFar t seen) -> NoDup (map fst m) ->
  (forall t, mapGet t (summaryStep m r) = weightSoFar t (seen ++ [r])) /\
  NoDup (map fst (summaryStep m r)).
Proof.
  intros Hget Hnd. unfold summaryStep. split.
  - intros t. rewrite mapGet_mapSet. unfold weightSoFar. rewrite weightsOf_snoc.
    destruct (String.eqb (RebarItem.barType r) t) eqn:Ht.
    + apply String.eqb_eq in Ht as <-. rewrite Hget, fold_snoc_Some. unfold weightSoFar.
      now destruct (weightsOf (RebarItem.barType r) seen).
    + rewrite app_nil_r. apply Hget.
  - rewrite mapSet_keys.
    destruct (mapGet (RebarItem.barType r) m) eqn:Hg; [assumption|].
    apply NoDup_app. split; [assumption|]. split; [|apply NoDup_singleton].
    intros x Hx Hx'. apply list_elem_of_In in Hx, Hx'. destruct Hx' as [<-|[]].
    now apply mapGet_None_keys in Hg.
Qed.

Lemma summaryFold_inv records :
  forall m seen,
    (forall t, mapGet t m = weightSoFar t seen) -> NoDup (map fst m) ->
    (forall t, mapGet t (fold_left summaryStep records m) = weightSoFar t (seen ++ records)) /\
    NoDup (map fst (fold_left summaryStep records m)).
Proof.
  induction records as [|r records IH]; intros m seen Hget Hnd; cbn [fold_left].
  - rewrite app_nil_r. now split.
  - destruct (summaryStep_inv m seen r Hget Hnd) as [Hget' Hnd'].
    specialize (IH _ _ Hget' Hnd'). now rewrite <- app_assoc in IH.
Qed.

Lemma weightsOf_nonempty t records :
  weightsOf t records <> [] <-> In t (map RebarItem.barType records).
Proof.
  unfold weightsOf. induction records as [|r records IH]; cbn [List.filter map In];
    [split; [congruence | intros []]|].
  destruct (String.eqb (RebarItem.barType r) t) eqn:Ht.
  - apply String.eqb_eq in Ht. split; [now left | discriminate].
  - apply String.eqb_neq in Ht. rewrite IH.
    split; [now right | intros [?|?]; [congruence | assumption]].
Qed.

Lemma summaryName_inj t1 t2 : summaryName t1 = summaryName t2 -> t1 = t2.
Proof.
  unfold summaryName. intros H. apply String.app_inj in H.
  revert t2 H. induction t1 as [|c t1 IH]; intros [|d t2] H.
  - reflexivity.
  - destruct t2; discriminate H.
  - destruct t1; discriminate H.
  - rewrite !app_cons in H. injection H as -> H. f_equal. now apply IH.
Qed.

Lemma rebarRows_eq (rebarItems : option (list RebarItem.t)) :
  rebarRows rebarItems = rebarHeaders :: map rebarRow (default [] rebarItems).
Proof.
  unfold rebarRows. generalize (default [] rebarItems) as records.
  assert (H : forall records acc,
             fold_left (fun rows item => (rows ++ [rebarRow item])%list) records acc
             = (acc ++ map rebarRow records)%list).
  { induction records as [|r records IH]; intros acc; cbn [fold_left map].
    - now rewrite app_nil_r.
    - rewrite IH, <- app_assoc. reflexivity. }
  intros records. now rewrite H.
Qed.

End Rebar.

Lemma NoDup_map_injective {A B : Type} (f : A -> B) (l : list A) :
  (forall x y, f x = f y -> x = y) -> NoDup l -> NoDup (map f l).
Proof.
  intros Hinj. induction 1 as [|x l Hx Hl IH]; cbn [map]; [constructor|].
  apply NoDup_cons. split; [|exact IH].
  intros Hin. apply Hx. apply list_elem_of_In in Hin. apply in_map_iff in Hin as (y & Hy & Hin).
  apply Hinj in Hy as ->. now apply list_elem_of_In.
Qed.

(** C8: the summaries are, up to order, one per distinct bar type of the
    batch: named ["Reinforcement Bars (Type t)"], in ["kg"], with the sum of
    the weights of all records of type [t] whatever their member or shape;
    their names are pairwise distinct; and they are sorted by name under the
    collation. *)
Theorem rebarSummary_spec {R : JsRuntime} {L : LawfulCollation R}
    (rebarItems : option (list RebarItem.t)) :
  let records := default [] rebarItems in
  let out := rebarSummary rebarItems in
  (exists types,
      NoDup types /\
      (forall t, In t types <-> In t (map RebarItem.barType records)) /\
      Permutation out
        (map (fun t => RebarSummary.mk (summaryName t)
                         (fold_left Qplus (weightsOf t records) 0%Q) "kg") types)) /\
  NoDup (map RebarSummary.name out) /\
  (forall s, In s out ->
     exists t, In t (map RebarItem.barType records) /\
               RebarSummary.name s = "Reinforcement Bars (Type " ++ t ++ ")" /\
               RebarSummary.unit s = "kg" /\
               (RebarSummary.totalQuantity s == sumQ (weightsOf t records))%Q) /\
  StronglySorted
    (fun a b => (localeCompare (RebarSummary.name a) (RebarSummary.name b) <= 0)%Z) out.
Proof.
  intros records out.
  destruct (summaryFold_inv records [] [] (fun _ => eq_refl) NoDup_nil_2) as [Hget Hnd].
  cbn [app] in Hget.
  set (m := fold_left summaryStep records []) in *.
  set (f := fun t => RebarSummary.mk (summaryName t)
                       (fold_left Qplus (weightsOf t records) 0%Q) "kg").
  assert (Hkeys : forall t, In t (map fst m) <-> In t (map RebarItem.barType records)).
  { intros t. rewrite <- mapGet_keys, <- weightsOf_nonempty, Hget. unfold weightSoFar.
    destruct (weightsOf t records); split; congruence. }
  assert (Hmap : map toSummary m = map f (map fst m)).
  { rewrite map_map. apply map_ext_in. intros [k v] Hin. unfold toSummary, f. cbn [fst snd].
    f_equal. pose proof (mapGet_In k v m Hnd Hin) as Hk. rewrite Hget in Hk.
    unfold weightSoFar in Hk. destruct (weightsOf k records); [discriminate | congruence]. }
  assert (Hperm : Permutation out (map f (map fst m))).
  { rewrite <- Hmap. apply sort_perm. }
  assert (Hall : forall s, In s out ->
            exists t, In t (map RebarItem.barType records) /\ s = f t).
  { intros s Hs. eapply Permutation_in in Hs; [|exact Hperm].
    apply in_map_iff in Hs as (t & <- & Ht). exists t. split; [now apply Hkeys | reflexivity]. }
  split; [exists (map fst m); repeat split; [exact Hnd | apply Hkeys | apply Hkeys | exact Hperm]|].
  split; [|split].
  - rewrite (Permutation_map RebarSummary.name Hperm), map_map.
    apply (NoDup_map_injective (fun t => summaryName t)); [apply summaryName_inj | exact Hnd].
  - intros s Hs. destruct (Hall s Hs) as (t & Ht & ->). exists t.
    repeat split; [exact Ht|]. cbn. rewrite fold_left_Qplus_sumQ. now rewrite Qplus_0_l.
  - apply (sort_sorted compareSummaries).
    + intros a b. apply localeCompare_total.
    + intros a b c. apply localeCompare_trans.
Qed.

Lemma rebarSummary_spec_witness :
  StronglySorted
    (fun a b => (Reference.codeUnitCompare (RebarSummary.name a) (RebarSummary.name b) <= 0)%Z)
    (rebarSummary (R := Reference.runtime) (Some Sample.rebarItems)) /\
  rebarSummary (R := Reference.runtime) (Some Sample.rebarItems)
  = [ RebarSummary.mk "Reinforcement Bars (Type Y12)" 5 "kg";
      RebarSummary.mk "Reinforcement Bars (Type Y16)" (0 + 10 + 1) "kg" ].
Proof.
  split; [|reflexivity].
  exact (proj2 (proj2 (proj2 (@rebarSummary_spec Reference.runtime reference_lawful
                                (Some Sample.rebarItems))))).
Defined.

(** ** Bar type recovered from a display name *)

Section BarType.

Import JsString.

Lemma removeFirst_unfold pat s :
  removeFirst pat s =
  if String.prefix pat s then dropChars (String.length pat) s
  else match s with
       | String c s' => String c (removeFirst pat s')
       | EmptyString => EmptyString
       end.
Proof. destruct s; reflexivity. Qed.

Lemma prefix_nil s : String.prefix "" s = true.
Proof. now destruct s. Qed.

Lemma prefix_app pat s : String.prefix pat (pat ++ s) = true.
Proof.
  induction pat as [|c pat IH]; [apply prefix_nil|].
  rewrite app_cons. cbn [String.prefix]. now destruct (Ascii.ascii_dec c c).
Qed.

Lemma dropChars_app pat s : dropChars (String.length pat) (pat ++ s) = s.
Proof. induction pat as [|c pat IH]; [now destruct s | exact IH]. Qed.

Lemma removeFirst_prefix pat s : removeFirst pat (pat ++ s) = s.
Proof. now rewrite removeFirst_unfold, prefix_app, dropChars_app. Qed.

(** Without a closing parenthesis inside, only the final one is removed. *)
Lemma removeFirst_paren t :
  ~ In ")"%char (list_ascii_of_string t) -> removeFirst ")" (t ++ ")") = t.
Proof.
  induction t as [|c t IH]; intros Hno; [reflexivity|].
  rewrite app_cons, removeFirst_unfold. cbn [String.prefix].
  destruct (Ascii.ascii_dec ")" c) as [<-|Hc]; [exfalso; apply Hno; now left|].
  f_equal. apply IH. intros Hin. apply Hno. now right.
Qed.

Lemma barTypeOf_summaryName t :
  ~ In ")"%char (list_ascii_of_string t) -> barTypeOf (summaryName t) = t.
Proof.
  intros Hno. unfold barTypeOf, summaryName. rewrite removeFirst_prefix.
  now apply removeFirst_paren.
Qed.

End BarType.

(** C9 fails on the code: for the bar type ["Y12 (B1) top"] the text put
    into the [SUMIF] formula is ["Y12 (B1 top)"], because [replace(')', '')]
    removes the first closing parenthesis of what is left of the name, not
    the one the display name ends with. *)
Theorem barType_first_paren_removed :
  barTypeOf (summaryName "Y12 (B1) top") = "Y12 (B1 top)" /\
  (forall (unitPrices : gmap string Q) (rowIndex : nat) (weight : Q),
     nth 2 (boqRebarRow unitPrices rowIndex (toSummary ("Y12 (B1) top", weight))) (Str "")
     = FormulaCell (sumIfFormula "Y12 (B1 top)")).
Proof. split; reflexivity. Qed.

(** X3 (what holds of C9): for a bar type with no closing parenthesis in
    it, the text recovered from the display name, and put into the [SUMIF]
    formula of the BOQ row, is the bar type itself. *)
Theorem barType_roundtrip (t : string) :
  ~ In ")"%char (list_ascii_of_string t) ->
  barTypeOf (summaryName t) = t /\
  forall (unitPrices : gmap string Q) (rowIndex : nat) (weight : Q),
    nth 2 (boqRebarRow unitPrices rowIndex (toSummary (t, weight))) (Str "")
    = FormulaCell (sumIfFormula t).
Proof.
  intros Hno. split; [now apply barTypeOf_summaryName|].
  intros unitPrices rowIndex weight. cbn [boqRebarRow nth toSummary RebarSummary.name fst].
  now rewrite barTypeOf_summaryName.
Qed.

Lemma barType_roundtrip_witness :
  barTypeOf (summaryName "Y16") = "Y16" /\
  nth 2 (boqRebarRow ∅ 7 (toSummary ("Y16", 11%Q))) (Str "")
  = FormulaCell (sumIfFormula "Y16").
Proof.
  assert (Hno : ~ In ")"%char (list_ascii_of_string "Y16")).
  { cbn. intros [H|[H|[H|[]]]]; discriminate H. }
  destruct (barType_roundtrip "Y16" Hno) as [Hname Hrow].
  split; [exact Hname | apply Hrow].
Defined.

(** ** Filters and the rebar outputs *)

(** C10: the search term and the category filter do not reach the rebar
    summary nor the exported Rebar Schedule: two renders and two exports of
    the same data that differ only in them agree on both, and the sheet has
    the header and one row per input record, in input order.  The Dim Sheet
    of the same data does change with the filter. *)
Theorem rebar_independent_of_filters {R : JsRuntime} (data : TakeoffResult.t)
    (searchTerm1 categoryFilter1 searchTerm2 categoryFilter2 : string)
    (unitPrices : gmap string Q) :
  View.rebarSummary (ResultsView data searchTerm1 categoryFilter1 unitPrices)
  = View.rebarSummary (ResultsView data searchTerm2 categoryFilter2 unitPrices) /\
  sheetNamed "Rebar Schedule" (handleExport data searchTerm1 categoryFilter1 unitPrices)
  = sheetNamed "Rebar Schedule" (handleExport data searchTerm2 categoryFilter2 unitPrices) /\
  sheetNamed "Rebar Schedule" (handleExport data searchTerm1 categoryFilter1 unitPrices)
  = Some (rebarHeaders :: map rebarRow (default [] (TakeoffResult.rebarItems data))) /\
  sheetNamed "Dim Sheet" (handleExport (R := Reference.runtime) Sample.data "" "All" ∅)
  <> sheetNamed "Dim Sheet" (handleExport (R := Reference.runtime) Sample.data "" "Painting" ∅).
Proof.
  split; [reflexivity|]. split; [reflexivity|]. split.
  - unfold handleExport, exportWorkbook, sheetNamed. cbn. now rewrite rebarRows_eq.
  - vm_compute. discriminate.
Qed.

(** ** Cost calculator *)

Section Cost.

Lemma rateOf_priceOf unitPrices name :
  readsNumber unitPrices name -> rateOf unitPrices name = Some (priceOf unitPrices name).
Proof.
  unfold readsNumber, rateOf, priceOf, JsObject.get.
  destruct (unitPrices !! name); [reflexivity|].
  destruct (JsObject.isPrototypeMember name); [congruence | reflexivity].
Qed.

Lemma rateOf_empty name :
  JsObject.isPrototypeMember name = false -> rateOf ∅ name = Some 0%Q.
Proof.
  intros H. unfold rateOf, JsObject.get. rewrite lookup_empty, H. reflexivity.
Qed.

Lemma rateOf_Some unitPrices name r :
  rateOf unitPrices name = Some r ->
  readsNumber unitPrices name /\ r = priceOf unitPrices name.
Proof.
  unfold rateOf, readsNumber, priceOf, JsObject.get.
  destruct (unitPrices !! name) as [v|]; [intros [= <-]; split; [discriminate | reflexivity]|].
  destruct (JsObject.isPrototypeMember name); [discriminate|].
  intros [= <-]. split; [discriminate | reflexivity].
Qed.

(** [NaN] is absorbing. *)
Lemma fold_addCost_None {A : Type} (nameOf : A -> string) (quantityOf : A -> Q)
    (unitPrices : gmap string Q) (lines : list A) :
  fold_left (fun t a => addCost unitPrices t (nameOf a) (quantityOf a)) lines None = None.
Proof. induction lines as [|a lines IH]; [reflexivity | exact IH]. Qed.

(** The accumulation over one list of priced lines, when it ends in a
    number. *)
Lemma fold_addCost_Some {A : Type} (nameOf : A -> string) (quantityOf : A -> Q)
    (unitPrices : gmap string Q) (lines : list A) (start total : Q) :
  fold_left (fun t a => addCost unitPrices t (nameOf a) (quantityOf a)) lines (Some start)
  = Some total ->
  List.Forall (fun a => readsNumber unitPrices (nameOf a)) lines /\
  (total == start + sumQ (map (fun a => quantityOf a * priceOf unitPrices (nameOf a)) lines))%Q.
Proof.
  revert start. induction lines as [|a lines IH]; intros start; cbn [fold_left map].
  - intros [= <-]. split; [constructor|]. cbn. now rewrite Qplus_0_r.
  - unfold addCost at 2. destruct (rateOf unitPrices (nameOf a)) as [r|] eqn:Hr.
    + apply rateOf_Some in Hr as [Hreads ->]. intros Hfold.
      destruct (IH _ Hfold) as [Hall Hsum]. split; [now constructor|].
      rewrite Hsum. cbn [sumQ fold_right]. now rewrite Qplus_assoc.
    + now rewrite fold_addCost_None.
Qed.

Lemma summaryName_plain t : JsObject.isPrototypeMember (summaryName t) = false.
Proof. reflexivity. Qed.

End Cost.

(** C7 fails on the code: for a group whose name is a member of
    [Object.prototype], such as ["constructor"], and no price entered,
    [unitPrices[name] || 0] is the inherited function, not 0, and the grand
    total is [NaN]. *)
Theorem grandTotalCost_inherited_price :
  map GroupedItem.name (groupedData (R := Reference.runtime) [Sample.constructorItem] "" "All")
  = ["constructor"] /\
  rateOf ∅ "constructor" = None /\
  grandTotalCost
    (groupedData (R := Reference.runtime) [Sample.constructorItem] "" "All") [] ∅ = None.
Proof. repeat split; reflexivity. Qed.

(** X2 (what holds of C7): whenever the grand total is a number, every
    display name read a number or [undefined] from the price map, none a
    member of the prototype, and the total is the sum over the groups plus
    the sum over the rebar summaries of quantity times price, an absent
    price being 0; with the empty price map it is then 0. *)
Theorem grandTotalCost_spec (groupedData : list GroupedItem.t)
    (rebarSummary : list RebarSummary.t) (unitPrices : gmap string Q) (total : Q) :
  grandTotalCost groupedData rebarSummary unitPrices = Some total ->
  List.Forall (fun g => readsNumber unitPrices (GroupedItem.name g)) groupedData /\
  List.Forall (fun r => readsNumber unitPrices (RebarSummary.name r)) rebarSummary /\
  (total ==
     sumQ (map (fun g => GroupedItem.totalQuantity g
                         * priceOf unitPrices (GroupedItem.name g)) groupedData)
     + sumQ (map (fun r => RebarSummary.totalQuantity r
                           * priceOf unitPrices (RebarSummary.name r)) rebarSummary))%Q /\
  (unitPrices = ∅ -> (total == 0)%Q).
Proof.
  unfold grandTotalCost. intros Htotal.
  destruct (fold_left
              (fun t group =>
                 addCost unitPrices t (GroupedItem.name group)
                   (GroupedItem.totalQuantity group)) groupedData (Some 0%Q))
    as [t1|] eqn:Hgroups; [|now rewrite fold_addCost_None in Htotal].
  apply fold_addCost_Some in Hgroups as [Hg H1].
  apply fold_addCost_Some in Htotal as [Hr H2].
  assert (Hsum : (total ==
       sumQ (map (fun g => GroupedItem.totalQuantity g
                           * priceOf unitPrices (GroupedItem.name g)) groupedData)
       + sumQ (map (fun r => RebarSummary.totalQuantity r
                             * priceOf unitPrices (RebarSummary.name r)) rebarSummary))%Q).
  { rewrite H2, H1. now rewrite Qplus_0_l. }
  split; [exact Hg|]. split; [exact Hr|]. split; [exact Hsum|].
  intros ->. rewrite Hsum.
  assert (Hz : forall (A : Type) (q : A -> Q) (n : A -> string) (l : list A),
             (sumQ (map (fun a => q a * priceOf ∅ (n a)) l) == 0)%Q).
  { intros A q n l. induction l as [|a l IH]; [reflexivity|].
    cbn [map sumQ fold_right]. fold (sumQ (map (fun a => q a * priceOf ∅ (n a))%Q l)).
    rewrite IH. unfold priceOf. rewrite lookup_empty. cbn [default]. ring. }
  rewrite !Hz. reflexivity.
Qed.

Lemma grandTotalCost_spec_witness :
  exists total,
    grandTotalCost (groupedData (R := Reference.runtime) Sample.items "" "All")
      (rebarSummary (R := Reference.runtime) (Some Sample.rebarItems))
      {[ "Wall - Paint" := 4%Q ]} = Some total /\
    (total == 100)%Q /\
    List.Forall (fun g => readsNumber {[ "Wall - Paint" := 4%Q ]} (GroupedItem.name g))
      (groupedData (R := Reference.runtime) Sample.items "" "All").
Proof.
  eexists. split; [vm_compute; reflexivity|].
  match goal with
  | |- (?t == _)%Q /\ _ =>
      destruct (grandTotalCost_spec
                  (groupedData (R := Reference.runtime) Sample.items "" "All")
                  (rebarSummary (R := Reference.runtime) (Some Sample.rebarItems))
                  {[ "Wall - Paint" := 4%Q ]} t) as (Hg & _ & Hsum & _)
  end.
  - vm_compute. reflexivity.
  - split; [|exact Hg]. vm_compute. reflexivity.
Defined.

(** ** Subtotal addresses *)

Section Addresses.

Context {R : JsRuntime}.

Lemma get_set_same {V : Type} (own : gmap string V) (k : string) (v : V) :
  k <> "__proto__" -> JsObject.get (JsObject.set own k v) k = JsObject.Own v.
Proof.
  intros Hk. unfold JsObject.get, JsObject.set.
  apply String.eqb_neq in Hk. rewrite Hk. now rewrite lookup_insert_eq.
Qed.

Lemma get_set_other {V : Type} (own : gmap string V) (k k' : string) (v : V) :
  k <> k' -> JsObject.get (JsObject.set own k v) k' = JsObject.get own k'.
Proof.
  intros Hk. unfold JsObject.get, JsObject.set.
  destruct (String.eqb k "__proto__"); [reflexivity|]. now rewrite lookup_insert_ne.
Qed.

Lemma dimAddress_eq r : dimAddress r = "'Dim Sheet'!D" ++ pretty (r + 1)%nat.
Proof. reflexivity. Qed.

Lemma qtyCell_address r total :
  qtyCell (JsObject.Own (dimAddress r)) total = FormulaCell (dimAddress r).
Proof. reflexivity. Qed.

(** The rows of the members of a group. *)
Lemma emitItems_spec (members : list AxisItem.t) (st : DimState) :
  fold_left emitItem members st
  = mkDimState
      (dimRows st ++ flat_map (fun item => [logicRow item; valueRow item]) members)
      (groupAddressMap st) (lastCat st)
      (currentRowIdx st + 2 * length members).
Proof.
  revert st. induction members as [|item members IH]; intros st; cbn [fold_left flat_map length].
  - rewrite app_nil_r, Nat.mul_0_r, Nat.add_0_r. now destruct st.
  - rewrite IH. unfold emitItem, pushCounted. cbn [dimRows groupAddressMap lastCat currentRowIdx].
    f_equal; [|lia]. rewrite <- !app_assoc. reflexivity.
Qed.

Lemma categoryHeader_spec (st : DimState) (group : GroupedItem.t) :
  exists header cat,
    categoryHeader st group
    = mkDimState (dimRows st ++ header) (groupAddressMap st) cat
        (currentRowIdx st + length header).
Proof.
  unfold categoryHeader.
  destruct (negb (String.eqb (GroupedItem.category group) (lastCat st))).
  - eexists [_], _. unfold pushCounted. cbn [dimRows groupAddressMap lastCat currentRowIdx].
    f_equal. cbn [length]. lia.
  - exists [], (lastCat st). destruct st as [rows addrs cat idx].
    cbn [dimRows groupAddressMap lastCat currentRowIdx length].
    now rewrite app_nil_r, Nat.add_0_r.
Qed.

(** One group: some rows, then the subtotal row and the spacer; the
    address recorded is that of the row the subtotal went to. *)
Lemma emitGroup_spec (st : DimState) (group : GroupedItem.t) :
  exists body,
    dimRows (emitGroup st group) = (dimRows st ++ body ++ [subtotalRow group; []])%list /\
    currentRowIdx (emitGroup st group) = (currentRowIdx st + length body + 2)%nat /\
    groupAddressMap (emitGroup st group)
    = JsObject.set (groupAddressMap st) (GroupedItem.name group)
        (dimAddress (currentRowIdx st + length body)).
Proof.
  unfold emitGroup.
  destruct (categoryHeader_spec st group) as (header & cat & ->).
  rewrite emitItems_spec. unfold pushCounted.
  cbn [dimRows groupAddressMap lastCat currentRowIdx].
  set (members := flat_map (fun item => [logicRow item; valueRow item])
                    (GroupedItem.items group)).
  assert (Hlen : length members = (2 * length (GroupedItem.items group))%nat).
  { unfold members. rewrite (flat_map_constant_length (c := 2)) by reflexivity. lia. }
  exists (header ++ [[Str ""; Str (GroupedItem.name group); Str ""; Str ""]] ++ members)%list.
  assert (Hidx : (currentRowIdx st + length header + 1 + 2 * length (GroupedItem.items group)
                  = currentRowIdx st
                    + length (header ++ [[Str ""; Str (GroupedItem.name group); Str ""; Str ""]]
                                ++ members))%nat).
  { unfold Row in *. rewrite !length_app. cbn [length]. lia. }
  split; [|split].
  - rewrite <- !app_assoc. reflexivity.
  - rewrite <- Hidx. lia.
  - rewrite <- Hidx. f_equal. f_equal. lia.
Qed.

(** The counter is the number of rows pushed so far. *)
Lemma emitGroups_counter (groups : list GroupedItem.t) (st : DimState) :
  currentRowIdx st = length (dimRows st) ->
  currentRowIdx (fold_left emitGroup groups st)
  = length (dimRows (fold_left emitGroup groups st)).
Proof.
  revert st. induction groups as [|g groups IH]; intros st Hst; cbn [fold_left]; [exact Hst|].
  apply IH. destruct (emitGroup_spec st g) as (body & -> & -> & _).
  rewrite !length_app. cbn [length]. lia.
Qed.

Lemma emitGroups_prefix (groups : list GroupedItem.t) (st : DimState) :
  exists more, dimRows (fold_left emitGroup groups st) = (dimRows st ++ more)%list.
Proof.
  revert st. induction groups as [|g groups IH]; intros st; cbn [fold_left].
  - exists []. now rewrite app_nil_r.
  - destruct (IH (emitGroup st g)) as (more & ->).
    destruct (emitGroup_spec st g) as (body & -> & _).
    eexists. rewrite <- app_assoc. reflexivity.
Qed.

Lemma emitGroups_untouched (groups : list GroupedItem.t) (st : DimState) (k : string) :
  Forall (fun g => GroupedItem.name g <> k) groups ->
  JsObject.get (groupAddressMap (fold_left emitGroup groups st)) k
  = JsObject.get (groupAddressMap st) k.
Proof.
  revert st. induction groups as [|g groups IH]; intros st Hall; cbn [fold_left]; [reflexivity|].
  apply Forall_cons in Hall as [Hg Hall]. rewrite IH by exact Hall.
  destruct (emitGroup_spec st g) as (body & _ & _ & ->). now apply get_set_other.
Qed.

(** Where the subtotal of a group sits and what is recorded for it. *)
Lemma dimSheet_subtotal (before : list GroupedItem.t) (group : GroupedItem.t)
    (after : list GroupedItem.t) :
  let emitted := dimSheet (before ++ [group]) in
  let final := dimSheet (before ++ group :: after) in
  exists r,
    length (dimRows emitted) = (r + 2)%nat /\
    dimRows emitted !! r = Some (subtotalRow group) /\
    dimRows final !! r = Some (subtotalRow group) /\
    groupAddressMap emitted
    = JsObject.set (groupAddressMap (dimSheet before)) (GroupedItem.name group) (dimAddress r) /\
    (Forall (fun g => GroupedItem.name g <> GroupedItem.name group) after ->
     JsObject.get (groupAddressMap final) (GroupedItem.name group)
     = JsObject.get (groupAddressMap emitted) (GroupedItem.name group)).
Proof.
  intros emitted final. unfold emitted, final, dimSheet.
  rewrite !fold_left_app. cbn [fold_left].
  set (st0 := fold_left emitGroup before (mkDimState [dimHeader] ∅ "" 1)).
  assert (Hc : currentRowIdx st0 = length (dimRows st0)) by now apply emitGroups_counter.
  destruct (emitGroup_spec st0 group) as (body & Hrows & Hidx & Hmap).
  destruct (emitGroups_prefix after (emitGroup st0 group)) as (more & Hmore).
  exists (currentRowIdx st0 + length body)%nat.
  assert (Hat : dimRows (emitGroup st0 group) !! (currentRowIdx st0 + length body)%nat
                = Some (subtotalRow group)).
  { rewrite Hrows, Hc, app_assoc.
    rewrite lookup_app_r by (rewrite length_app; lia).
    rewrite length_app. now replace (_ - _)%nat with 0%nat by lia. }
  split; [rewrite Hrows, !length_app; cbn [length]; lia|].
  split; [exact Hat|].
  split; [rewrite Hmore; now apply lookup_app_l_Some|].
  split; [exact Hmap|].
  apply emitGroups_untouched.
Qed.

(** Every name carried by some group has a last group carrying it. *)
Lemma last_named (name : string) (groups : list GroupedItem.t) :
  (exists g, In g groups /\ GroupedItem.name g = name) ->
  exists before g after,
    groups = (before ++ g :: after)%list /\
    GroupedItem.name g = name /\
    Forall (fun g' => GroupedItem.name g' <> name) after.
Proof.
  induction groups as [|x groups IH]; intros (g & Hin & Hname); [destruct Hin|].
  destruct (existsb (fun g' => String.eqb (GroupedItem.name g') name) groups) eqn:Hex.
  - apply existsb_exists in Hex as (y & Hy & Heq). apply String.eqb_eq in Heq.
    destruct IH as (before & g' & after & -> & Hg' & Hafter); [now exists y|].
    now exists (x :: before), g', after.
  - assert (Hnone : Forall (fun g' => GroupedItem.name g' <> name) groups).
    { apply List.Forall_forall. intros y Hy Heq.
      assert (existsb (fun g' => String.eqb (GroupedItem.name g') name) groups = true);
        [|congruence].
      apply existsb_exists. exists y. split; [exact Hy | now apply String.eqb_eq]. }
    destruct Hin as [<- | Hin].
    + now exists [], x, groups.
    + exfalso. rewrite List.Forall_forall in Hnone. now apply (Hnone g Hin).
Qed.

(** The group rows of the BOQ sheet, numbered from the counter. *)
Lemma emitBoqGroups_spec addresses unitPrices (groups : list GroupedItem.t) (st : BoqState) :
  fold_left (emitBoqGroup addresses unitPrices) groups st
  = mkBoqState
      (boqRows st
         ++ imap (fun i g => boqGroupRow addresses unitPrices (boqRowIndex st + i) g) groups)
      (boqRowIndex st + length groups).
Proof.
  revert st. induction groups as [|g groups IH]; intros st; cbn [fold_left imap length].
  - rewrite app_nil_r, Nat.add_0_r. now destruct st.
  - rewrite IH. unfold emitBoqGroup. cbn [boqRows boqRowIndex].
    f_equal; [|lia]. rewrite <- app_assoc. cbn [app]. rewrite Nat.add_0_r. do 2 f_equal.
    apply imap_ext. intros i y _. cbn. f_equal. lia.
Qed.

Lemma emitBoqRebar_prefix unitPrices (summaries : list RebarSummary.t) (st : BoqState) :
  exists more,
    boqRows (fold_left (emitBoqRebar unitPrices) summaries st) = (boqRows st ++ more)%list.
Proof.
  revert st. induction summaries as [|r summaries IH]; intros st; cbn [fold_left].
  - exists []. now rewrite app_nil_r.
  - destruct (IH (emitBoqRebar unitPrices st r)) as (more & ->).
    unfold emitBoqRebar. cbn [boqRows]. eexists. rewrite <- app_assoc. reflexivity.
Qed.

(** The row of the BOQ sheet that belongs to the group at a position. *)
Lemma boqSheet_group_row (before : list GroupedItem.t) (group : GroupedItem.t)
    (after : list GroupedItem.t) (rebarSummary : list RebarSummary.t)
    (addresses : gmap string string) (unitPrices : gmap string Q) :
  boqSheet (before ++ group :: after) rebarSummary addresses unitPrices
    !! (1 + length before)%nat
  = Some (boqGroupRow addresses unitPrices (1 + length before) group).
Proof.
  unfold boqSheet. rewrite emitBoqGroups_spec. cbn [boqRows boqRowIndex].
  assert (Hrow : ([boqHeader]
                    ++ imap (fun i g => boqGroupRow addresses unitPrices (1 + i) g)
                         (before ++ group :: after))%list !! (1 + length before)%nat
                 = Some (boqGroupRow addresses unitPrices (1 + length before) group)).
  { cbn [app]. rewrite lookup_cons. cbn [Nat.add].
    rewrite list_lookup_imap, list_lookup_middle by reflexivity. reflexivity. }
  destruct (0 <? length rebarSummary)%nat.
  - match goal with
    | |- context [fold_left (emitBoqRebar _) _ ?st] =>
        destruct (emitBoqRebar_prefix unitPrices rebarSummary st) as (more & Hmore)
    end.
    apply lookup_app_l_Some. rewrite Hmore. cbn [boqRows].
    do 2 apply lookup_app_l_Some. exact Hrow.
  - cbn [boqRows]. apply lookup_app_l_Some. exact Hrow.
Qed.

End Addresses.

(** C1 fails on the code: for a group named ["__proto__"] the subtotal row
    is pushed (row index 5 of the Dim Sheet), but the assignment into the
    address map is swallowed by the inherited setter, so no address is
    recorded; the lookup during BOQ emission returns the prototype object,
    and the quantity cell of the group's BOQ row carries that object as its
    formula instead of a reference to the subtotal cell. *)
Theorem subtotal_address_lost_for_proto :
  let groups := groupedData (R := Reference.runtime) [Sample.protoItem] "" "All" in
  let dim := dimSheet (R := Reference.runtime) groups in
  map GroupedItem.name groups = ["__proto__"] /\
  dimRows dim !! 5%nat = Some [Str ""; Str "SUBTOTAL"; Str ""; NumberCell (0 + 1)] /\
  groupAddressMap dim = ∅ /\
  JsObject.get (groupAddressMap dim) "__proto__" = JsObject.Inherited /\
  boqSheet groups [] (groupAddressMap dim) ∅ !! 1%nat
  = Some [Str "__proto__"; Str "nr"; FormulaObjectCell; ValueObjectCell; FormulaCell "C2*D2"].
Proof. repeat split; reflexivity. Qed.

(** X1 (what holds of C1): for groups not named ["__proto__"], the address
    recorded when a group is emitted is column D of the row its subtotal
    was pushed to (the second-to-last row emitted for the group), and that
    row holds the
    subtotal in the finished sheet too; the entry the BOQ emission reads for
    the group is the address recorded for the last group of the same name,
    and the quantity cell of the group's BOQ row is a formula cell holding
    it; when the names are pairwise distinct that is the group's own
    subtotal cell. *)
Theorem subtotal_addresses {R : JsRuntime}
    (before : list GroupedItem.t) (group : GroupedItem.t) (after : list GroupedItem.t)
    (rebarSummary : list RebarSummary.t) (unitPrices : gmap string Q) :
  Forall (fun g => GroupedItem.name g <> "__proto__") (before ++ group :: after) ->
  let groups := (before ++ group :: after)%list in
  let emitted := dimSheet (before ++ [group]) in
  let final := dimSheet groups in
  let boq := boqSheet groups rebarSummary (groupAddressMap final) unitPrices in
  let boqRow := fun address =>
    [ Str (GroupedItem.name group); Str (GroupedItem.unit group); FormulaCell address;
      rateCell unitPrices (GroupedItem.name group);
      FormulaCell (amountFormula (length before + 2)) ] in
  exists r,
    length (dimRows emitted) = (r + 2)%nat /\
    dimRows emitted !! r = Some (subtotalRow group) /\
    dimRows final !! r = Some (subtotalRow group) /\
    JsObject.get (groupAddressMap emitted) (GroupedItem.name group)
    = JsObject.Own ("'Dim Sheet'!D" ++ pretty (r + 1)%nat) /\
    (exists before' group' after' r',
        groups = (before' ++ group' :: after')%list /\
        GroupedItem.name group' = GroupedItem.name group /\
        Forall (fun g => GroupedItem.name g <> GroupedItem.name group) after' /\
        length (dimRows (dimSheet (before' ++ [group']))) = (r' + 2)%nat /\
        dimRows final !! r' = Some (subtotalRow group') /\
        JsObject.get (groupAddressMap final) (GroupedItem.name group)
        = JsObject.Own ("'Dim Sheet'!D" ++ pretty (r' + 1)%nat) /\
        boq !! (1 + length before)%nat
        = Some (boqRow ("'Dim Sheet'!D" ++ pretty (r' + 1)%nat))) /\
    (NoDup (map GroupedItem.name groups) ->
     boq !! (1 + length before)%nat = Some (boqRow ("'Dim Sheet'!D" ++ pretty (r + 1)%nat))).
Proof.
  intros Hnames groups emitted final boq boqRow.
  assert (Hrow : forall r0,
            JsObject.get (groupAddressMap final) (GroupedItem.name group)
            = JsObject.Own (dimAddress r0) ->
            boq !! (1 + length before)%nat = Some (boqRow (dimAddress r0))).
  { intros r0 Hget. unfold boq, groups. rewrite boqSheet_group_row.
    unfold boqGroupRow, boqRow. fold groups. fold final. rewrite Hget, qtyCell_address.
    replace (1 + length before + 1)%nat with (length before + 2)%nat by lia. reflexivity. }
  assert (Hgroup : GroupedItem.name group <> "__proto__").
  { rewrite List.Forall_forall in Hnames. apply Hnames. apply in_or_app. right. now left. }
  destruct (dimSheet_subtotal before group after) as (r & Hlen & Hem & Hfin & Hmap & Hkeep).
  fold emitted in Hlen, Hem, Hmap, Hkeep. fold groups in Hfin, Hkeep. fold final in Hfin, Hkeep.
  assert (Hown : JsObject.get (groupAddressMap emitted) (GroupedItem.name group)
                 = JsObject.Own (dimAddress r)).
  { rewrite Hmap. now apply get_set_same. }
  exists r. split; [exact Hlen|]. split; [exact Hem|]. split; [exact Hfin|].
  split; [exact Hown|]. split.
  - destruct (last_named (GroupedItem.name group) groups) as (b' & g' & a' & Heq & Hname & Hlast).
    { exists group. split; [|reflexivity]. apply in_or_app. right. now left. }
    destruct (dimSheet_subtotal b' g' a') as (r' & Hlen' & _ & Hfin' & Hmap' & Hkeep').
    rewrite <- Heq in Hfin', Hkeep'. fold final in Hfin', Hkeep'.
    assert (Hget : JsObject.get (groupAddressMap final) (GroupedItem.name group)
                   = JsObject.Own (dimAddress r')).
    { rewrite <- Hname. rewrite Hkeep' by (now rewrite Hname).
      rewrite Hmap'. apply get_set_same. now rewrite Hname. }
    exists b', g', a', r'.
    split; [exact Heq|]. split; [exact Hname|]. split; [exact Hlast|].
    split; [exact Hlen'|]. split; [exact Hfin'|]. split; [exact Hget|].
    now apply Hrow.
  - intros Hnd. apply Hrow. rewrite Hkeep; [exact Hown|].
    unfold groups in Hnd. rewrite map_app in Hnd. cbn [map] in Hnd.
    apply NoDup_app in Hnd as (_ & _ & Hnd). apply NoDup_cons in Hnd as [Hnot _].
    apply List.Forall_forall. intros g Hg Heq. apply Hnot. rewrite <- Heq.
    apply list_elem_of_In. now apply in_map.
Qed.

Lemma subtotal_addresses_witness :
  let groups := groupedData (R := Reference.runtime) Sample.items "" "All" in
  let final := dimSheet (R := Reference.runtime) groups in
  map GroupedItem.name groups = ["Grade Beam (GB1) - Concrete C30"; "Wall - Paint"] /\
  dimRows final !! 13%nat = Some [Str ""; Str "SUBTOTAL"; Str ""; NumberCell (0 + 15 + 10)] /\
  boqSheet groups [] (groupAddressMap final) ∅ !! 2%nat
  = Some [ Str "Wall - Paint"; Str "m2"; FormulaCell "'Dim Sheet'!D14"; NumberCell 0;
           FormulaCell "C3*D3" ].
Proof.
  intros groups final.
  split; [reflexivity|].
  assert (Hgroups : exists g1 g2, groups = ([g1] ++ g2 :: [])%list /\
                                  GroupedItem.name g1 = "Grade Beam (GB1) - Concrete C30" /\
                                  GroupedItem.name g2 = "Wall - Paint" /\
                                  subtotalRow g2
                                  = [Str ""; Str "SUBTOTAL"; Str ""; NumberCell (0 + 15 + 10)] /\
                                  GroupedItem.unit g2 = "m2").
  { eexists _, _. repeat split; reflexivity. }
  destruct Hgroups as (g1 & g2 & Heq & Hn1 & Hn2 & Hsub & Hunit).
  assert (Hnames : Forall (fun g => GroupedItem.name g <> "__proto__") ([g1] ++ g2 :: [])).
  { repeat constructor; [rewrite Hn1 | rewrite Hn2]; discriminate. }
  assert (Hnd : NoDup (map GroupedItem.name ([g1] ++ g2 :: []))).
  { cbn [map app]. rewrite Hn1, Hn2. apply NoDup_cons. split; [|apply NoDup_singleton].
    intros Hin. apply list_elem_of_In in Hin. destruct Hin as [H|[]]. discriminate H. }
  destruct (@subtotal_addresses Reference.runtime [g1] g2 [] [] ∅ Hnames)
    as (r & Hlen & _ & Hfin & _ & _ & Hboq).
  specialize (Hboq Hnd). rewrite <- Heq in Hfin, Hboq. fold final in Hfin, Hboq.
  assert (Hr : r = 13%nat).
  { assert (Hl : length (dimRows (dimSheet (R := Reference.runtime) ([g1] ++ [g2]))) = 15%nat).
    { change ([g1] ++ [g2])%list with ([g1] ++ g2 :: [])%list. rewrite <- Heq. reflexivity. }
    rewrite Hl in Hlen. lia. }
  subst r. rewrite Hsub in Hfin. split; [exact Hfin|].
  change (1 + length [g1])%nat with 2%nat in Hboq.
  rewrite Hboq, Hn2, Hunit. reflexivity.
Defined.

(** * Further properties *)

(** ** Layout of the Dim Sheet *)

Section DimLayout.

Context {R : JsRuntime}.

Lemma showCategoryHeaders_flags (groups : list GroupedItem.t) :
  showCategoryHeaders groups = headerFlags "" groups.
Proof.
  unfold showCategoryHeaders.
  assert (H : forall gs last acc,
             snd (fold_left
                    (fun (st : string * list bool) group =>
                       (GroupedItem.category group,
                        (snd st ++ [negb (String.eqb (GroupedItem.category group) (fst st))])%list))
                    gs (last, acc))
             = (acc ++ headerFlags last gs)%list).
  { induction gs as [|g gs IH]; intros last acc; cbn [fold_left headerFlags].
    - now rewrite app_nil_r.
    - rewrite IH. cbn [fst snd]. now rewrite <- app_assoc. }
  apply H.
Qed.

Lemma headerFlags_length last (groups : list GroupedItem.t) :
  length (headerFlags last groups) = length groups.
Proof.
  revert last. induction groups as [|g groups IH]; intros last; cbn; [reflexivity|].
  now rewrite IH.
Qed.

Lemma groupBlock_length (flag : bool) (group : GroupedItem.t) :
  length (groupBlock flag group)
  = ((if flag then 1 else 0) + 2 * length (GroupedItem.items group) + 3)%nat.
Proof.
  unfold groupBlock, Row. rewrite !length_app.
  rewrite (flat_map_constant_length (c := 2)) by reflexivity.
  destruct flag; cbn [length]; lia.
Qed.

(** One group, exactly. *)
Lemma emitGroup_exact (st : DimState) (group : GroupedItem.t) :
  emitGroup st group
  = mkDimState
      (dimRows st
         ++ groupBlock (negb (String.eqb (GroupedItem.category group) (lastCat st))) group)
      (JsObject.set (groupAddressMap st) (GroupedItem.name group)
         (dimAddress
            (length (groupBlock (negb (String.eqb (GroupedItem.category group) (lastCat st)))
                       group) + currentRowIdx st - 2)))
      (GroupedItem.category group)
      (currentRowIdx st
       + length (groupBlock (negb (String.eqb (GroupedItem.category group) (lastCat st)))
                   group)).
Proof.
  rewrite groupBlock_length.
  unfold emitGroup, categoryHeader, groupBlock.
  destruct (negb (String.eqb (GroupedItem.category group) (lastCat st))) eqn:Hflag;
    rewrite emitItems_spec; unfold pushCounted;
    cbn [dimRows groupAddressMap lastCat currentRowIdx].
  - f_equal;
      first [ rewrite <- !app_assoc; reflexivity | do 2 f_equal; lia | lia ].
  - apply negb_false_iff, String.eqb_eq in Hflag. f_equal;
      first [ rewrite <- !app_assoc; reflexivity | do 2 f_equal; lia | lia
            | now symmetry ].
Qed.

Lemma emitGroups_exact (groups : list GroupedItem.t) (st : DimState) :
  dimRows (fold_left emitGroup groups st)
  = (dimRows st ++ groupBlocks (headerFlags (lastCat st) groups) groups)%list /\
  currentRowIdx (fold_left emitGroup groups st)
  = (currentRowIdx st + length (groupBlocks (headerFlags (lastCat st) groups) groups))%nat.
Proof.
  revert st. induction groups as [|g groups IH]; intros st; cbn [fold_left headerFlags groupBlocks].
  - now rewrite app_nil_r, Nat.add_0_r.
  - destruct (IH (emitGroup st g)) as [Hrows Hidx]. rewrite Hrows, Hidx.
    rewrite emitGroup_exact. cbn [dimRows lastCat currentRowIdx].
    rewrite <- app_assoc, length_app. split; [reflexivity | lia].
Qed.

End DimLayout.

(** X4: the Dim Sheet is its header row followed, group by group, by an
    optional category header, the group's name row, a logic row and a value
    row per member, the subtotal row and an empty row; a category header
    is exported exactly where the on-screen table shows one (where the
    category differs from that of the group before); and the row counter
    the emitter keeps equals the number of rows pushed. *)
Theorem dimSheet_layout {R : JsRuntime} (groupedData : list GroupedItem.t) :
  dimRows (dimSheet groupedData)
  = dimHeader :: groupBlocks (showCategoryHeaders groupedData) groupedData /\
  length (showCategoryHeaders groupedData) = length groupedData /\
  showCategoryHeaders groupedData = headerFlags "" groupedData /\
  currentRowIdx (dimSheet groupedData) = length (dimRows (dimSheet groupedData)).
Proof.
  rewrite showCategoryHeaders_flags.
  destruct (emitGroups_exact groupedData (mkDimState [dimHeader] ∅ "" 1)) as [Hrows Hidx].
  unfold dimSheet. rewrite Hrows, Hidx. cbn [dimRows lastCat currentRowIdx app length].
  split; [reflexivity|]. split; [apply headerFlags_length|]. split; [reflexivity | lia].
Qed.

(** X5: the address map of the Dim Sheet holds nothing stale or foreign:
    every entry is keyed by the name of a group (never ["__proto__"]), and
    its value is the address of column D of the row that holds the subtotal
    of the last group of that name; and every group not named
    ["__proto__"] has an entry. *)
Theorem addressMap_sound {R : JsRuntime} (groupedData : list GroupedItem.t) :
  (forall k v,
     groupAddressMap (dimSheet groupedData) !! k = Some v ->
     exists before g after r,
       groupedData = (before ++ g :: after)%list /\
       GroupedItem.name g = k /\ k <> "__proto__" /\
       Forall (fun g' => GroupedItem.name g' <> k) after /\
       v = "'Dim Sheet'!D" ++ pretty (r + 1)%nat /\
       dimRows (dimSheet groupedData) !! r = Some (subtotalRow g)) /\
  (forall g, In g groupedData -> GroupedItem.name g <> "__proto__" ->
     is_Some (groupAddressMap (dimSheet groupedData) !! GroupedItem.name g)).
Proof.
  induction groupedData as [|g gs [IH1 IH2]] using rev_ind.
  - split; [intros k v H; cbn in H; now rewrite lookup_empty in H | intros g []].
  - destruct (dimSheet_subtotal gs g []) as (r & _ & Hat & _ & Hmap & _).
    assert (Hrows : exists more,
               dimRows (dimSheet (gs ++ [g])) = (dimRows (dimSheet gs) ++ more)%list).
    { unfold dimSheet. rewrite fold_left_app. cbn [fold_left].
      rewrite emitGroup_exact. cbn [dimRows]. eexists. reflexivity. }
    destruct Hrows as (more & Hrows).
    assert (Hold : forall k v,
               groupAddressMap (dimSheet gs) !! k = Some v -> GroupedItem.name g <> k ->
               exists before g0 after r0,
                 (gs ++ [g])%list = (before ++ g0 :: after)%list /\
                 GroupedItem.name g0 = k /\ k <> "__proto__" /\
                 Forall (fun g' => GroupedItem.name g' <> k) after /\
                 v = "'Dim Sheet'!D" ++ pretty (r0 + 1)%nat /\
                 dimRows (dimSheet (gs ++ [g])) !! r0 = Some (subtotalRow g0)).
    { intros k v Hk Hne.
      destruct (IH1 k v Hk) as (before & g0 & after & r0 & -> & Hn & Hp & Hafter & Hv & Hrow).
      exists before, g0, (after ++ [g])%list, r0.
      split; [now rewrite <- app_assoc|]. split; [exact Hn|]. split; [exact Hp|].
      split; [apply Forall_app; split; [exact Hafter | now constructor]|].
      split; [exact Hv|]. rewrite Hrows. now apply lookup_app_l_Some. }
    split.
    + intros k v. rewrite Hmap. unfold JsObject.set.
      destruct (String.eqb (GroupedItem.name g) "__proto__") eqn:Hproto.
      * apply String.eqb_eq in Hproto. intros Hk. apply (Hold k v Hk).
        intros <-. destruct (IH1 _ v Hk) as (_ & _ & _ & _ & _ & _ & Hp & _). congruence.
      * apply String.eqb_neq in Hproto. rewrite lookup_insert.
        destruct (decide (GroupedItem.name g = k)) as [<- | Hne].
        -- intros Hv. injection Hv as <-. exists gs, g, [], r.
           split; [reflexivity|]. split; [reflexivity|]. split; [exact Hproto|].
           split; [constructor|]. split; [reflexivity | exact Hat].
        -- intros Hk. now apply Hold.
    + intros g0 Hin Hp. rewrite Hmap. unfold JsObject.set.
      apply in_app_or in Hin as [Hin | [<- | []]].
      * destruct (String.eqb (GroupedItem.name g) "__proto__"); [now apply IH2|].
        rewrite lookup_insert. destruct (decide _); [eauto | now apply IH2].
      * apply String.eqb_neq in Hp. rewrite Hp, lookup_insert_eq. eauto.
Qed.

Section DimShape.

Context {R : JsRuntime}.

Lemma quantityCell_plain dimension timesing quantity :
  plainCell (quantityCell dimension timesing quantity) = true.
Proof. unfold quantityCell. now destruct (0 <? _)%nat. Qed.

Lemma groupBlocks_shape (flags : list bool) (groups : list GroupedItem.t) :
  Forall (fun row : Row => (row = [] \/ length row = 4%nat) /\ forallb plainCell row = true)
    (groupBlocks flags groups).
Proof.
  revert flags. induction groups as [|g groups IH]; intros [|f flags]; cbn [groupBlocks];
    try constructor.
  apply Forall_app. split; [|apply IH].
  unfold groupBlock. repeat (apply Forall_app; split).
  - destruct f; repeat constructor; now right.
  - repeat constructor; now right.
  - apply Forall_flat_map, List.Forall_forall. intros item _.
    constructor; [split; [now right | reflexivity]|].
    constructor; [|constructor].
    split; [now right|]. unfold valueRow. cbn [forallb plainCell andb].
    now rewrite quantityCell_plain.
  - constructor; [split; [now right | reflexivity]|].
    constructor; [split; [now left | reflexivity] | constructor].
Qed.

End DimShape.

(** X6: every row of the Dim Sheet is empty or has exactly four cells, and
    none of its cells carries an object where a formula string or a number
    belongs, whatever the names of the groups. *)
Theorem dimSheet_shape {R : JsRuntime} (groupedData : list GroupedItem.t) :
  Forall (fun row : Row => (row = [] \/ length row = 4%nat) /\ forallb plainCell row = true)
    (dimRows (dimSheet groupedData)).
Proof.
  destruct (emitGroups_exact groupedData (mkDimState [dimHeader] ∅ "" 1)) as [Hrows _].
  unfold dimSheet. rewrite Hrows. cbn [dimRows app].
  constructor; [split; [now right | reflexivity] | apply groupBlocks_shape].
Qed.

Section BoqLayout.

Lemma emitBoqRebar_spec unitPrices (summaries : list RebarSummary.t) (st : BoqState) :
  fold_left (emitBoqRebar unitPrices) summaries st
  = mkBoqState
      (boqRows st
         ++ imap (fun j r => boqRebarRow unitPrices (boqRowIndex st + j) r) summaries)
      (boqRowIndex st + length summaries).
Proof.
  revert st. induction summaries as [|r summaries IH]; intros st; cbn [fold_left imap length].
  - rewrite app_nil_r, Nat.add_0_r. now destruct st.
  - rewrite IH. unfold emitBoqRebar. cbn [boqRows boqRowIndex].
    f_equal; [|lia]. rewrite <- app_assoc. cbn [app]. rewrite Nat.add_0_r. do 2 f_equal.
    apply imap_ext. intros i y _. cbn. f_equal. lia.
Qed.

Lemma boqRebarSection_length groupCount (rebarSummary : list RebarSummary.t) unitPrices :
  length (boqRebarSection groupCount rebarSummary unitPrices)
  = match rebarSummary with [] => 0%nat | _ => (2 + length rebarSummary)%nat end.
Proof.
  destruct rebarSummary as [|r rs]; [reflexivity|].
  unfold boqRebarSection. rewrite length_app, length_imap. reflexivity.
Qed.

(** The total row closing a BOQ sheet whose rows above the blank line are
    [n] in number. *)
Lemma boqSheet_exact (groupedData : list GroupedItem.t) (rebarSummary : list RebarSummary.t)
    (addresses : gmap string string) (unitPrices : gmap string Q) :
  boqSheet groupedData rebarSummary addresses unitPrices
  = (boqHeader
       :: imap (fun i g => boqGroupRow addresses unitPrices (1 + i) g) groupedData
       ++ boqRebarSection (length groupedData) rebarSummary unitPrices
       ++ [ blankBoqRow;
            [ Str "GRAND TOTAL"; Str ""; Str ""; Str "";
              FormulaCell
                ("SUM(E2:E"
                 ++ pretty (1 + length groupedData
                            + length (boqRebarSection (length groupedData) rebarSummary
                                        unitPrices))%nat
                 ++ ")") ] ])%list.
Proof.
  unfold boqSheet. rewrite emitBoqGroups_spec. cbn [boqRows boqRowIndex].
  rewrite boqRebarSection_length.
  destruct rebarSummary as [|r rs].
  - cbn [length Nat.ltb Nat.leb boqRebarSection boqRows boqRowIndex app].
    rewrite Nat.add_0_r. reflexivity.
  - change (0 <? length (r :: rs))%nat with true. cbv iota.
    rewrite emitBoqRebar_spec. cbn [boqRows boqRowIndex].
    unfold boqRebarSection. rewrite <- !app_assoc. cbn [app]. do 5 f_equal.
    + apply imap_ext. intros j y _. f_equal. lia.
    + replace (1 + length groupedData + 2 + length (r :: rs))%nat
        with (1 + length groupedData + (2 + length (r :: rs)))%nat by lia.
      reflexivity.
Qed.

End BoqLayout.

(** X7: the Bill of Quantities sheet is its header row, one row per group
    in the order of the groups, then (only when there are rebar summaries)
    a blank row, the title row REBAR SUMMARY and one row per summary, then a
    blank row and the GRAND TOTAL row, whose formula sums column E from
    Excel row 2 to the last row above that blank row. *)
Theorem boqSheet_layout (groupedData : list GroupedItem.t) (rebarSummary : list RebarSummary.t)
    (addresses : gmap string string) (unitPrices : gmap string Q) :
  exists body : list Row,
    body = (boqHeader
              :: imap (fun i g => boqGroupRow addresses unitPrices (1 + i) g) groupedData
              ++ boqRebarSection (length groupedData) rebarSummary unitPrices)%list /\
    boqSheet groupedData rebarSummary addresses unitPrices
    = (body ++ [ blankBoqRow;
                 [ Str "GRAND TOTAL"; Str ""; Str ""; Str "";
                   FormulaCell ("SUM(E2:E" ++ pretty (length body) ++ ")") ] ])%list /\
    length body
    = (1 + length groupedData
       + match rebarSummary with [] => 0 | _ => 2 + length rebarSummary end)%nat /\
    Forall (fun row : Row => length row = 5%nat)
      (boqSheet groupedData rebarSummary addresses unitPrices).
Proof.
  eexists. split; [reflexivity|].
  assert (Hlen : length (boqHeader
              :: imap (fun i g => boqGroupRow addresses unitPrices (1 + i) g) groupedData
              ++ boqRebarSection (length groupedData) rebarSummary unitPrices)%list
            = (1 + length groupedData
               + length (boqRebarSection (length groupedData) rebarSummary unitPrices))%nat).
  { cbn [length]. rewrite length_app, length_imap. lia. }
  split; [|split].
  - rewrite boqSheet_exact, Hlen. cbn [app]. rewrite <- app_assoc. reflexivity.
  - rewrite Hlen, boqRebarSection_length. reflexivity.
  - rewrite boqSheet_exact. constructor; [reflexivity|].
    apply Forall_app. split; [|apply Forall_app; split].
    + apply List.Forall_forall. intros row Hin. apply list_elem_of_In in Hin.
      apply list_elem_of_lookup in Hin as (i & Hi).
      rewrite list_lookup_imap in Hi.
      destruct (groupedData !! i); [|discriminate]. injection Hi as <-. reflexivity.
    + destruct rebarSummary as [|r rs]; [constructor|]. unfold boqRebarSection.
      apply Forall_app. split; [repeat constructor|].
      apply List.Forall_forall. intros row Hin. apply list_elem_of_In in Hin.
      apply list_elem_of_lookup in Hin as (i & Hi).
      rewrite list_lookup_imap in Hi.
      destruct ((r :: rs) !! i); [|discriminate]. injection Hi as <-. reflexivity.
    + repeat constructor.
Qed.

(** X8: in the Bill of Quantities sheet a cell of column E that holds a
    formula either sits in a row above the last one and holds [C<n>*D<n>]
    for the Excel number [n] of its own row, or sits in the last row and
    holds [SUM(E2:E<n>)] where [n] is the number of rows above the blank row
    that precedes it, the header counted: one more than the number of
    groups, plus two and the number of rebar summaries when there are any.
    With neither groups nor summaries that is [SUM(E2:E1)]. *)
Theorem boqSheet_formulas_same_row (groupedData : list GroupedItem.t)
    (rebarSummary : list RebarSummary.t) (addresses : gmap string string)
    (unitPrices : gmap string Q) (i : nat) (row : Row) (f : string) :
  boqSheet groupedData rebarSummary addresses unitPrices !! i = Some row ->
  row !! 4%nat = Some (FormulaCell f) ->
  (S i < length (boqSheet groupedData rebarSummary addresses unitPrices) /\
   f = amountFormula (i + 1))%nat \/
  (S i = length (boqSheet groupedData rebarSummary addresses unitPrices) /\
   f = "SUM(E2:E" ++ pretty (i - 1)%nat ++ ")" /\
   (i - 1 = 1 + length groupedData
            + match rebarSummary with [] => 0 | _ => 2 + length rebarSummary end)%nat /\
   (groupedData = [] -> rebarSummary = [] -> f = "SUM(E2:E1)")).
Proof.
  rewrite boqSheet_exact.
  set (n := length groupedData).
  set (sect := boqRebarSection n rebarSummary unitPrices).
  assert (Hlen : forall tail : list Row,
             length (boqHeader
                       :: imap (fun i g => boqGroupRow addresses unitPrices (1 + i) g)
                            groupedData ++ sect ++ tail)%list
             = (1 + n + length sect + length tail)%nat).
  { intros tail. cbn [length]. rewrite !length_app, length_imap. fold n. lia. }
  assert (Hsect : length sect
                  = match rebarSummary with [] => 0 | _ => 2 + length rebarSummary end%nat)
    by apply boqRebarSection_length.
  rewrite Hlen. cbn [length].
  destruct i as [|k]; [intros [= <-]; discriminate|].
  rewrite lookup_cons. intros Hrow Hcell.
  apply lookup_app_Some in Hrow as [Hrow | [Hge Hrow]].
  - (* a group row *)
    rewrite list_lookup_imap in Hrow.
    destruct (groupedData !! k) as [g|] eqn:Hg; [|discriminate].
    apply lookup_lt_Some in Hg. fold n in Hg.
    injection Hrow as <-. cbn in Hcell. injection Hcell as <-.
    left. unfold Row in *. split; [lia|]. f_equal.
  - rewrite length_imap in Hge, Hrow. fold n in Hge, Hrow.
    apply lookup_app_Some in Hrow as [Hrow | [Hge' Hrow]].
    + (* the rebar section *)
      pose proof (lookup_lt_Some _ _ _ Hrow) as Hlt.
      clear Hsect. subst sect. destruct rebarSummary as [|r rs]; [discriminate|].
      unfold boqRebarSection in Hrow, Hlt |- *.
      remember (k - n)%nat as d eqn:Hd.
      destruct d as [|[|j]]; cbn [app lookup list_lookup] in Hrow.
      * injection Hrow as <-. discriminate.
      * injection Hrow as <-. discriminate.
      * pose proof (eq_trans (eq_sym (list_lookup_imap
                      (fun j r => boqRebarRow unitPrices (n + 3 + j) r) (r :: rs) j)) Hrow)
          as Hrow'. clear Hrow. rename Hrow' into Hrow.
        destruct ((r :: rs) !! j) as [r'|]; [|discriminate].
        injection Hrow as <-. cbn in Hcell. injection Hcell as <-.
        left. unfold Row in *. split; [lia|]. f_equal. lia.
    + (* the blank row and the total *)
      remember (k - n - length sect)%nat as d eqn:Hd.
      destruct d as [|[|d]]; cbn in Hrow; [| |discriminate].
      * injection Hrow as <-. discriminate.
      * injection Hrow as <-. cbn in Hcell. injection Hcell as <-.
        right. unfold Row in *.
        assert (Hk : (S k - 1 = 1 + n + length sect)%nat) by lia.
        split; [lia|]. split; [do 3 f_equal; lia|]. split; [now rewrite Hk, Hsect|].
        intros Hg Hr. subst n sect. rewrite Hg, Hr. reflexivity.
Qed.

Lemma boqSheet_formulas_same_row_witness :
  (3 < length (boqSheet (groupedData (R := Reference.runtime) Sample.items "" "All") [] ∅ ∅) /\
   "C3*D3" = amountFormula (2 + 1))%nat \/
  (3%nat = length (boqSheet (groupedData (R := Reference.runtime) Sample.items "" "All") [] ∅ ∅) /\
   "C3*D3" = "SUM(E2:E" ++ pretty (2 - 1)%nat ++ ")" /\
   (2 - 1 = 1 + length (groupedData (R := Reference.runtime) Sample.items "" "All") + 0)%nat /\
   (groupedData (R := Reference.runtime) Sample.items "" "All" = [] ->
    @nil RebarSummary.t = [] -> "C3*D3" = "SUM(E2:E1)")).
Proof.
  apply (boqSheet_formulas_same_row
           (groupedData (R := Reference.runtime) Sample.items "" "All") [] ∅ ∅ 2
           [ Str "Wall - Paint"; Str "m2"; NumberCell (0 + 15 + 10); NumberCell 0;
             FormulaCell "C3*D3" ] "C3*D3"); reflexivity.
Defined.

(** ** The category chart *)

Section Chart.

Lemma quantitiesOf_snoc c seen item :
  quantitiesOf c (seen ++ [item])
  = (quantitiesOf c seen
       ++ if String.eqb (TakeoffItem.category item) c then [TakeoffItem.quantity item]
          else [])%list.
Proof.
  unfold quantitiesOf. rewrite List.filter_app, map_app. cbn [List.filter].
  now destruct (String.eqb (TakeoffItem.category item) c).
Qed.

Lemma sumQ_map_snoc {A : Type} (f : A -> Q) (l : list A) (a : A) :
  (sumQ (map f (l ++ [a])) == sumQ (map f l) + f a)%Q.
Proof. rewrite map_app, sumQ_app. cbn [map sumQ fold_right]. ring. Qed.

Lemma quantitiesOf_nonempty c seen :
  quantitiesOf c seen <> [] -> exists it, In it seen /\ TakeoffItem.category it = c.
Proof.
  induction seen as [|x seen IH]; [now intros []|].
  unfold quantitiesOf. cbn [List.filter].
  destruct (String.eqb (TakeoffItem.category x) c) eqn:Hc.
  - apply String.eqb_eq in Hc. intros _. exists x. split; [now left | exact Hc].
  - intros H. destruct (IH H) as (it & Hin & Hcat). exists it. split; [now right | exact Hcat].
Qed.

(** What one turn of the reduction does to the accumulator. *)
Lemma chartStep_cases (acc : list ChartEntry.t) (item : TakeoffItem.t) :
  (exists l1 x l2,
      acc = (l1 ++ x :: l2)%list /\
      ChartEntry.name x = TakeoffItem.category item /\
      ~ In (TakeoffItem.category item) (map ChartEntry.name l1) /\
      chartStep acc item
      = (l1 ++ ChartEntry.mk (TakeoffItem.category item) (ChartEntry.count x + 1)
                 (ChartEntry.value x + TakeoffItem.quantity item) :: l2)%list) \/
  (~ In (TakeoffItem.category item) (map ChartEntry.name acc) /\
   chartStep acc item
   = (acc ++ [ChartEntry.mk (TakeoffItem.category item) 1 (TakeoffItem.quantity item)])%list).
Proof.
  induction acc as [|y acc IH]; cbn [chartStep].
  - right. split; [intros [] | reflexivity].
  - destruct (String.eqb (ChartEntry.name y) (TakeoffItem.category item)) eqn:Hy.
    + apply String.eqb_eq in Hy. left. exists [], y, acc.
      split; [reflexivity|]. split; [exact Hy|]. split; [intros []|].
      cbn [app]. now rewrite Hy.
    + apply String.eqb_neq in Hy.
      destruct IH as [(l1 & x & l2 & -> & Hx & Hl1 & ->) | [Hnot ->]].
      * left. exists (y :: l1), x, l2. split; [reflexivity|]. split; [exact Hx|].
        split; [|reflexivity]. cbn [map]. intros [E|Hin]; [congruence | now apply Hl1].
      * right. split; [|reflexivity]. cbn [map]. intros [E|Hin]; [congruence | now apply Hnot].
Qed.

Lemma chartStep_inv seen acc item :
  chartInv seen acc -> chartInv (seen ++ [item]) (chartStep acc item).
Proof.
  intros (Hnd & Hent & Hcov & Hcount & Hval).
  assert (Hother : forall e, In e acc -> ChartEntry.name e <> TakeoffItem.category item ->
             ChartEntry.count e = length (quantitiesOf (ChartEntry.name e) (seen ++ [item])) /\
             (ChartEntry.value e
              == sumQ (quantitiesOf (ChartEntry.name e) (seen ++ [item])))%Q).
  { intros e Hin Hne. rewrite quantitiesOf_snoc.
    destruct (String.eqb (TakeoffItem.category item) (ChartEntry.name e)) eqn:He;
      [apply String.eqb_eq in He; congruence|].
    rewrite app_nil_r. now apply Hent. }
  destruct (chartStep_cases acc item) as [(l1 & x & l2 & -> & Hx & Hl1 & ->) | [Hnot ->]].
  - rewrite map_app in Hnd. cbn [map] in Hnd.
    assert (Hl2 : ~ In (TakeoffItem.category item) (map ChartEntry.name l2)).
    { apply List.NoDup_remove_2 in Hnd. rewrite Hx in Hnd. intros Hin. apply Hnd.
      apply in_or_app. now right. }
    split; [|split; [|split; [|split]]].
    + rewrite map_app. cbn [map ChartEntry.name]. now rewrite <- Hx.
    + intros e Hin. apply in_app_or in Hin as [Hin | [<- | Hin]].
      * apply Hother; [apply in_or_app; now left|].
        intros E. apply Hl1. rewrite <- E. now apply in_map.
      * cbn [ChartEntry.name ChartEntry.count ChartEntry.value].
        rewrite quantitiesOf_snoc, String.eqb_refl, length_app, sumQ_app. cbn [length].
        destruct (Hent x) as [Hc Hv]; [apply in_or_app; right; now left|].
        rewrite Hx in Hc, Hv. rewrite Hc, Hv. split; [reflexivity|].
        cbn [sumQ fold_right]. now rewrite Qplus_0_r.
      * apply Hother; [apply in_or_app; right; now right|].
        intros E. apply Hl2. rewrite <- E. now apply in_map.
    + intros it Hin. rewrite map_app. cbn [map ChartEntry.name]. rewrite <- Hx.
      change (In (TakeoffItem.category it) (map ChartEntry.name l1 ++ map ChartEntry.name (x :: l2))).
      rewrite <- map_app.
      apply in_app_or in Hin as [Hin | [<- | []]]; [now apply Hcov|].
      rewrite map_app. apply in_or_app. right. left. exact Hx.
    + rewrite map_app, list_sum_app in Hcount |- *. unfold list_sum in *.
      cbn [map fold_right ChartEntry.count] in *. rewrite length_app. cbn [length]. lia.
    + rewrite sumQ_map_snoc, <- Hval, !map_app, !sumQ_app.
      cbn [map sumQ fold_right ChartEntry.value]. ring.
  - split; [|split; [|split; [|split]]].
    + rewrite map_app. cbn [map ChartEntry.name]. apply List.NoDup_app; [exact Hnd | | ].
      * repeat constructor. intros [].
      * intros c Hin [<-|[]]. now apply Hnot.
    + intros e Hin. apply in_app_or in Hin as [Hin | [<- | []]].
      * apply Hother; [exact Hin|]. intros E. apply Hnot. rewrite <- E. now apply in_map.
      * cbn [ChartEntry.name ChartEntry.count ChartEntry.value].
        rewrite quantitiesOf_snoc, String.eqb_refl.
        assert (Hempty : quantitiesOf (TakeoffItem.category item) seen = []).
        { destruct (quantitiesOf (TakeoffItem.category item) seen) as [|q qs] eqn:Hq;
            [reflexivity|].
          destruct (quantitiesOf_nonempty (TakeoffItem.category item) seen)
            as (it & Hit & Hcat); [rewrite Hq; discriminate|].
          exfalso. apply Hnot. rewrite <- Hcat. now apply Hcov. }
        rewrite Hempty. cbn [app length sumQ fold_right]. split; [reflexivity|].
        now rewrite Qplus_0_r.
    + intros it Hin. rewrite map_app. apply in_or_app.
      apply in_app_or in Hin as [Hin | [<- | []]]; [left; now apply Hcov | right; now left].
    + rewrite map_app, list_sum_app, length_app. unfold list_sum in *.
      cbn [map fold_right ChartEntry.count length]. lia.
    + rewrite !sumQ_map_snoc, <- Hval. cbn [ChartEntry.value]. reflexivity.
Qed.

Lemma chartData_inv (items : list TakeoffItem.t) : chartInv items (chartData items).
Proof.
  induction items as [|item items IH] using rev_ind.
  - split; [constructor|]. split; [intros e []|]. split; [intros it []|].
    split; reflexivity.
  - unfold chartData. rewrite fold_left_app. cbn [fold_left]. now apply chartStep_inv.
Qed.

End Chart.

(** X9: the chart data has exactly one entry per category that occurs
    among the items; an entry's count is the number of items of its
    category and its value the sum of their quantities; the counts add up
    to the number of items and the values to the sum of all quantities. *)
Theorem chartData_spec (items : list TakeoffItem.t) :
  List.NoDup (map ChartEntry.name (chartData items)) /\
  (forall c, In c (map ChartEntry.name (chartData items))
             <-> In c (map TakeoffItem.category items)) /\
  (forall e, In e (chartData items) ->
     ChartEntry.count e = length (quantitiesOf (ChartEntry.name e) items) /\
     (1 <= ChartEntry.count e)%nat /\
     (ChartEntry.value e == sumQ (quantitiesOf (ChartEntry.name e) items))%Q) /\
  list_sum (map ChartEntry.count (chartData items)) = length items /\
  (sumQ (map ChartEntry.value (chartData items))
   == sumQ (map TakeoffItem.quantity items))%Q.
Proof.
  destruct (chartData_inv items) as (Hnd & Hent & Hcov & Hcount & Hval).
  assert (Hpos : forall e, In e (chartData items) -> (1 <= ChartEntry.count e)%nat).
  { unfold chartData.
    assert (Hgen : forall its acc,
               (forall e, In e acc -> (1 <= ChartEntry.count e)%nat) ->
               forall e, In e (fold_left chartStep its acc) -> (1 <= ChartEntry.count e)%nat).
    { induction its as [|it its IHits]; intros acc Hacc; cbn [fold_left]; [exact Hacc|].
      apply IHits. intros e Hin.
      destruct (chartStep_cases acc it) as [(l1 & x & l2 & -> & _ & _ & Heq) | [_ Heq]];
        rewrite Heq in Hin; apply in_app_or in Hin as [Hin | [<- | Hin]].
      - apply Hacc, in_or_app. now left.
      - cbn. lia.
      - apply Hacc, in_or_app. right. now right.
      - now apply Hacc.
      - cbn. lia.
      - destruct Hin. }
    apply Hgen. intros e []. }
  split; [exact Hnd|]. split; [|split; [|split; [exact Hcount | exact Hval]]].
  - intros c. split.
    + intros Hin. apply in_map_iff in Hin as (e & <- & He).
      destruct (Hent e He) as [Hc _]. specialize (Hpos e He).
      destruct (quantitiesOf_nonempty (ChartEntry.name e) items) as (it & Hit & Hcat).
      * intros E. rewrite E in Hc. cbn in Hc. lia.
      * rewrite <- Hcat. now apply in_map.
    + intros Hin. apply in_map_iff in Hin as (it & <- & Hit). now apply Hcov.
  - intros e He. destruct (Hent e He) as [Hc Hv]. split; [exact Hc|].
    split; [now apply Hpos | exact Hv].
Qed.

(** ** Editing unit prices *)

Section PriceEdits.

Variable parseFloat : string -> option Q.

(** The number an edit stores: [isNaN(numValue) ? 0 : numValue]. *)
Lemma handleUnitPriceChange_same prev name value :
  JsObject.get (handleUnitPriceChange parseFloat prev name value) name
  = JsObject.Own (default 0%Q (parseFloat value)).
Proof.
  unfold handleUnitPriceChange, JsObject.get. rewrite lookup_insert_eq.
  now destruct (parseFloat value).
Qed.

Lemma handleUnitPriceChange_other prev name value other :
  other <> name ->
  JsObject.get (handleUnitPriceChange parseFloat prev name value) other
  = JsObject.get prev other.
Proof.
  intros Hne. unfold handleUnitPriceChange, JsObject.get.
  now rewrite lookup_insert_ne by congruence.
Qed.

Lemma applyPriceEdits_snoc edits e prev :
  applyPriceEdits parseFloat (edits ++ [e]) prev
  = handleUnitPriceChange parseFloat (applyPriceEdits parseFloat edits prev) (fst e) (snd e).
Proof. unfold applyPriceEdits. now rewrite fold_left_app. Qed.

Lemma applyPriceEdits_unedited edits prev name :
  ~ In name (map fst edits) ->
  JsObject.get (applyPriceEdits parseFloat edits prev) name = JsObject.get prev name.
Proof.
  revert prev. induction edits as [|[n v] edits IH]; intros prev Hnot; [reflexivity|].
  cbn [map fst In] in Hnot. unfold applyPriceEdits. cbn [fold_left fst snd].
  fold (applyPriceEdits parseFloat edits (handleUnitPriceChange parseFloat prev n v)).
  rewrite IH by tauto. apply handleUnitPriceChange_other. intros ->. tauto.
Qed.

Lemma applyPriceEdits_last before name value after prev :
  ~ In name (map fst after) ->
  JsObject.get (applyPriceEdits parseFloat (before ++ (name, value) :: after) prev) name
  = JsObject.Own (default 0%Q (parseFloat value)).
Proof.
  intros Hnot. unfold applyPriceEdits. rewrite fold_left_app. cbn [fold_left fst snd].
  match goal with
  | |- JsObject.get (fold_left ?f after ?p) name = _ =>
      change (fold_left f after p) with (applyPriceEdits parseFloat after p)
  end.
  rewrite applyPriceEdits_unedited by exact Hnot. apply handleUnitPriceChange_same.
Qed.

End PriceEdits.

(** X10: after a sequence of rate edits the price read for a name is the
    number typed in the last edit of that name, 0 when that text does not
    parse as a number, also when the name is that of a member of
    [Object.prototype]; and a name never edited reads what it read
    before. *)
Theorem price_edits_last_write_wins (parseFloat : string -> option Q)
    (edits : list (string * string)) (prev : gmap string Q) :
  (forall before name value after,
     edits = (before ++ (name, value) :: after)%list ->
     ~ In name (map fst after) ->
     rateOf (applyPriceEdits parseFloat edits prev) name
     = Some (match parseFloat value with Some v => v | None => 0%Q end) /\
     priceOf (applyPriceEdits parseFloat edits prev) name
     = match parseFloat value with Some v => v | None => 0%Q end) /\
  (forall name,
     ~ In name (map fst edits) ->
     JsObject.get (applyPriceEdits parseFloat edits prev) name = JsObject.get prev name).
Proof.
  split.
  - intros before name value after -> Hnot.
    pose proof (applyPriceEdits_last parseFloat before name value after prev Hnot) as Hget.
    unfold rateOf, priceOf. rewrite Hget. unfold JsObject.get in Hget.
    destruct (applyPriceEdits parseFloat (before ++ (name, value) :: after) prev !! name)
      as [w|] eqn:Hw.
    + injection Hget as ->. split; now destruct (parseFloat value).
    + destruct (JsObject.isPrototypeMember name); discriminate.
  - intros name Hnot. now apply applyPriceEdits_unedited.
Qed.

(** ** Group keys *)

Section GroupKeys.

Context {R : JsRuntime}.

Lemma addToGroups_cases key fresh entry (groups : list (string * GroupedItem.t)) :
  (exists l1 g l2,
      groups = (l1 ++ (key, g) :: l2)%list /\
      ~ In key (map fst l1) /\
      addToGroups key fresh entry groups = (l1 ++ (key, pushItem entry g) :: l2)%list) \/
  (~ In key (map fst groups) /\
   addToGroups key fresh entry groups = (groups ++ [(key, pushItem entry fresh)])%list).
Proof.
  induction groups as [|[k g] groups IH]; cbn [addToGroups].
  - right. split; [intros [] | reflexivity].
  - destruct (String.eqb k key) eqn:Hk.
    + apply String.eqb_eq in Hk as ->. left. exists [], g, groups.
      split; [reflexivity|]. split; [intros [] | reflexivity].
    + apply String.eqb_neq in Hk.
      destruct IH as [(l1 & g' & l2 & -> & Hl1 & ->) | [Hnot ->]].
      * left. exists ((k, g) :: l1), g', l2. split; [reflexivity|].
        split; [|reflexivity]. cbn [map fst]. intros [E|Hin]; [congruence | now apply Hl1].
      * right. split; [|reflexivity]. cbn [map fst].
        intros [E|Hin]; [congruence | now apply Hnot].
Qed.

Lemma filter_none {A : Type} (f : A -> bool) (l : list A) :
  (forall x, In x l -> f x = false) -> List.filter f l = [].
Proof.
  induction l as [|x l IH]; intros H; [reflexivity|]. cbn [List.filter].
  rewrite (H x) by now left. apply IH. intros y Hy. apply H. now right.
Qed.

Lemma groupKeyOf_pushItem entry g : groupKeyOf (pushItem entry g) = groupKeyOf g.
Proof. reflexivity. Qed.

(** A group filed under another key is not touched by the new item. *)
Lemma groupHolds_other passing item g :
  groupKeyOf g <> itemKey item -> groupHolds passing g -> groupHolds (passing ++ [item]) g.
Proof.
  intros Hne (Hmem & Hax & Hhead). split; [|split; assumption].
  rewrite List.filter_app. cbn [List.filter].
  destruct (String.eqb (itemKey item) (groupKeyOf g)) eqn:He;
    [apply String.eqb_eq in He; congruence|].
  now rewrite app_nil_r.
Qed.

(** The group filed under the item's key takes it as its last member. *)
Lemma groupHolds_push passing item g :
  groupKeyOf g = itemKey item -> groupHolds passing g ->
  groupHolds (passing ++ [item])
    (pushItem (AxisItem.mk item (snd (classify (TakeoffItem.description item)))) g).
Proof.
  intros Hkey (Hmem & Hax & Hhead). split; [|split].
  - rewrite groupKeyOf_pushItem. cbn [pushItem GroupedItem.items].
    rewrite map_app, Hmem, List.filter_app. cbn [map List.filter AxisItem.item].
    now rewrite Hkey, String.eqb_refl.
  - cbn [pushItem GroupedItem.items]. apply List.Forall_app. split; [exact Hax|].
    constructor; [reflexivity | constructor].
  - unfold headFields in *. cbn [pushItem GroupedItem.items GroupedItem.name GroupedItem.unit
                                 GroupedItem.category].
    destruct (GroupedItem.items g) as [|e rest]; [destruct Hhead | exact Hhead].
Qed.

Lemma groupsInv_step passing groups item :
  groupsInv passing groups ->
  groupsInv (passing ++ [item])
    (addToGroups (itemKey item)
       (GroupedItem.mk (fst (classify (TakeoffItem.description item)))
          (TakeoffItem.unit item) (TakeoffItem.category item) [] 0%Q)
       (AxisItem.mk item (snd (classify (TakeoffItem.description item)))) groups).
Proof.
  intros (Hnd & Hall & Hcov).
  destruct (addToGroups_cases (itemKey item)
              (GroupedItem.mk (fst (classify (TakeoffItem.description item)))
                 (TakeoffItem.unit item) (TakeoffItem.category item) [] 0%Q)
              (AxisItem.mk item (snd (classify (TakeoffItem.description item)))) groups)
    as [(l1 & g & l2 & -> & Hl1 & ->) | [Hnot ->]].
  - rewrite map_app in Hnd. cbn [map fst] in Hnd.
    assert (Hl2 : ~ In (itemKey item) (map fst l2)).
    { apply List.NoDup_remove_2 in Hnd. intros Hin. apply Hnd, in_or_app. now right. }
    apply List.Forall_app in Hall as [H1 H2]. apply List.Forall_cons_iff in H2 as [[Hk Hg] H2].
    cbn [fst snd] in Hk, Hg.
    split; [|split].
    + rewrite map_app. cbn [map fst]. exact Hnd.
    + apply List.Forall_app. split; [|constructor].
      * rewrite List.Forall_forall in H1 |- *. intros [k g'] Hin.
        destruct (H1 _ Hin) as [Hk' Hg']. cbn [fst snd] in *. split; [exact Hk'|].
        apply groupHolds_other; [|exact Hg']. rewrite <- Hk'. intros E. apply Hl1.
        rewrite <- E. change k with (fst (k, g')). now apply in_map.
      * cbn [fst snd]. split; [now rewrite groupKeyOf_pushItem|].
        apply groupHolds_push; [now symmetry | exact Hg].
      * rewrite List.Forall_forall in H2 |- *. intros [k g'] Hin.
        destruct (H2 _ Hin) as [Hk' Hg']. cbn [fst snd] in *. split; [exact Hk'|].
        apply groupHolds_other; [|exact Hg']. rewrite <- Hk'. intros E. apply Hl2.
        rewrite <- E. change k with (fst (k, g')). now apply in_map.
    + intros it Hin. rewrite map_app. cbn [map fst].
      apply in_app_or in Hin as [Hin | [<- | []]].
      * specialize (Hcov it Hin). rewrite map_app in Hcov. exact Hcov.
      * apply in_or_app. right. now left.
  - split; [|split].
    + rewrite map_app. cbn [map fst]. apply List.NoDup_app; [exact Hnd | |].
      * repeat constructor. intros [].
      * intros k Hin [<-|[]]. now apply Hnot.
    + apply List.Forall_app. split.
      * rewrite List.Forall_forall in Hall |- *. intros [k g'] Hin.
        destruct (Hall _ Hin) as [Hk' Hg']. cbn [fst snd] in *. split; [exact Hk'|].
        apply groupHolds_other; [|exact Hg']. rewrite <- Hk'. intros E. apply Hnot.
        rewrite <- E. change k with (fst (k, g')). now apply in_map.
      * constructor; [|constructor]. cbn [fst snd]. split; [reflexivity|].
        split; [|split].
        -- rewrite groupKeyOf_pushItem. cbn [pushItem GroupedItem.items map AxisItem.item app].
           rewrite List.filter_app. cbn [List.filter].
           change (groupKeyOf (GroupedItem.mk _ _ _ _ _)) with (itemKey item).
           rewrite String.eqb_refl, filter_none; [reflexivity|].
           intros it Hit. apply String.eqb_neq. intros E. apply Hnot. rewrite <- E.
           now apply Hcov.
        -- repeat constructor.
        -- unfold headFields. cbn. repeat split.
    + intros it Hin. rewrite map_app. apply in_or_app.
      apply in_app_or in Hin as [Hin | [<- | []]]; [left; now apply Hcov | right; now left].
Qed.

Lemma groupsInv_fold searchTerm categoryFilter (items : list TakeoffItem.t) :
  groupsInv (List.filter (passesFilter searchTerm categoryFilter) items)
    (fold_left (groupStep searchTerm categoryFilter) items []).
Proof.
  induction items as [|item items IH] using rev_ind.
  - split; [constructor|]. split; [constructor | intros it []].
  - rewrite fold_left_app, List.filter_app. cbn [fold_left List.filter].
    unfold groupStep at 1.
    destruct (passesFilter searchTerm categoryFilter item); [|now rewrite app_nil_r].
    destruct (classify (TakeoffItem.description item)) as [groupName axis] eqn:Hc.
    pose proof (groupsInv_step _ _ item IH) as Hstep.
    unfold itemKey in Hstep at 1. rewrite Hc in Hstep. exact Hstep.
Qed.

Lemma groupedData_holds searchTerm categoryFilter (items : list TakeoffItem.t) g :
  In g (groupedData items searchTerm categoryFilter) ->
  groupHolds (List.filter (passesFilter searchTerm categoryFilter) items) g.
Proof.
  intros Hin. destruct (groupsInv_fold searchTerm categoryFilter items) as (_ & Hall & _).
  apply (Permutation_in _ (sort_perm _ _)) in Hin.
  apply in_map_iff in Hin as ([k g'] & <- & Hin).
  rewrite List.Forall_forall in Hall. now destruct (Hall _ Hin).
Qed.

End GroupKeys.

(** X12: no two groups are filed under the same key, so no two groups
    agree on name, unit and category; every passing item lies in the group of
    its key; and every group holds exactly the passing items filed under its
    key, in input order, each with the location label of its description,
    and takes its name, unit and category from the first of them. *)
Theorem groupedData_keys {R : JsRuntime}
    (items : list TakeoffItem.t) (searchTerm categoryFilter : string) :
  List.NoDup (map groupKeyOf (groupedData items searchTerm categoryFilter)) /\
  (forall it, In it (List.filter (passesFilter searchTerm categoryFilter) items) ->
     exists g, In g (groupedData items searchTerm categoryFilter) /\
               groupKeyOf g = itemKey it) /\
  (forall g, In g (groupedData items searchTerm categoryFilter) ->
     groupHolds (List.filter (passesFilter searchTerm categoryFilter) items) g) /\
  (forall g, In g (groupedData items searchTerm categoryFilter) ->
     GroupedItem.items g <> []).
Proof.
  destruct (groupsInv_fold searchTerm categoryFilter items) as (Hnd & Hall & Hcov).
  set (groups := fold_left (groupStep searchTerm categoryFilter) items []) in *.
  assert (Hsort : Permutation (groupedData items searchTerm categoryFilter) (map snd groups))
    by apply sort_perm.
  assert (Hkeys : map groupKeyOf (map snd groups) = map fst groups).
  { clear -Hall. induction Hall as [|[k g] l [Hk _] _ IH]; [reflexivity|].
    cbn [map fst snd] in *. now rewrite IH, Hk. }
  pose proof (groupedData_holds searchTerm categoryFilter items) as Hholds.
  split; [|split; [|split]].
  - eapply Permutation_NoDup; [apply Permutation_map; symmetry; exact Hsort|].
    now rewrite Hkeys.
  - intros it Hit. specialize (Hcov it Hit). rewrite <- Hkeys in Hcov.
    apply in_map_iff in Hcov as (g & Hk & Hg). exists g. split; [|exact Hk].
    eapply Permutation_in; [symmetry; exact Hsort | exact Hg].
  - exact Hholds.
  - intros g Hin E. destruct (Hholds g Hin) as (_ & _ & Hhead).
    unfold headFields in Hhead. now rewrite E in Hhead.
Qed.

(** ** Filters *)

Section Filters.

Context {R : JsRuntime}.

Lemma includes_nil s : JsString.includes "" s = true.
Proof. destruct s; reflexivity. Qed.

Lemma filter_all {A : Type} (f : A -> bool) (l : list A) :
  (forall x, In x l -> f x = true) -> List.filter f l = l.
Proof.
  induction l as [|x l IH]; intros H; [reflexivity|]. cbn [List.filter].
  rewrite (H x) by now left. f_equal. apply IH. intros y Hy. apply H. now right.
Qed.

Lemma passesFilter_initial item :
  toLowerCase "" = "" -> passesFilter "" "All" item = true.
Proof.
  intros H. unfold passesFilter, matchesSearch, matchesCategory.
  now rewrite H, includes_nil.
Qed.

End Filters.

(** X13: every member of every group passed both filters: its description,
    lowered, contains the lowered search term, and under a category filter
    other than ["All"] its category and that of its group are the filter's. *)
Theorem groupedData_members_pass {R : JsRuntime}
    (items : list TakeoffItem.t) (searchTerm categoryFilter : string)
    (g : GroupedItem.t) (e : AxisItem.t) :
  In g (groupedData items searchTerm categoryFilter) ->
  In e (GroupedItem.items g) ->
  In (AxisItem.item e) items /\
  JsString.includes (toLowerCase searchTerm)
    (toLowerCase (TakeoffItem.description (AxisItem.item e))) = true /\
  (categoryFilter <> "All" ->
   TakeoffItem.category (AxisItem.item e) = categoryFilter /\
   GroupedItem.category g = categoryFilter).
Proof.
  intros Hg He. destruct (groupedData_holds _ _ _ _ Hg) as (Hmem & _ & Hhead).
  assert (Hpass : forall e', In e' (GroupedItem.items g) ->
             In (AxisItem.item e') items /\
             passesFilter searchTerm categoryFilter (AxisItem.item e') = true).
  { intros e' He'. apply (in_map AxisItem.item) in He'. rewrite Hmem in He'.
    apply List.filter_In in He' as [He' _]. now apply List.filter_In in He'. }
  assert (Hcat : forall e', In e' (GroupedItem.items g) -> categoryFilter <> "All" ->
             TakeoffItem.category (AxisItem.item e') = categoryFilter).
  { intros e' He' Hne. destruct (Hpass e' He') as [_ Hp].
    unfold passesFilter, matchesCategory in Hp. apply andb_prop in Hp as [_ Hp].
    apply orb_prop in Hp as [Hp|Hp]; apply String.eqb_eq in Hp; congruence. }
  destruct (Hpass e He) as [Hin Hp]. split; [exact Hin|]. split.
  - unfold passesFilter, matchesSearch in Hp. now apply andb_prop in Hp as [Hp _].
  - intros Hne. split; [now apply Hcat|].
    unfold headFields in Hhead. destruct (GroupedItem.items g) as [|e0 rest]; [destruct He|].
    destruct Hhead as (_ & _ & ->). apply Hcat; [now left | exact Hne].
Qed.

Lemma groupedData_members_pass_witness :
  In (Sample.item "Wall - Paint - Room 2" 1 "4m x 2.50m" 10 "m2" "Painting") Sample.items /\
  JsString.includes (toLowerCase (JsRuntime := Reference.runtime) "ROOM")
    (toLowerCase (JsRuntime := Reference.runtime) "Wall - Paint - Room 2") = true /\
  ("Painting" <> "All" -> "Painting" = "Painting" /\ "Painting" = "Painting").
Proof.
  apply (groupedData_members_pass (R := Reference.runtime) Sample.items "ROOM" "Painting"
           (GroupedItem.mk "Wall - Paint" "m2" "Painting"
              [ AxisItem.mk (Sample.item "Wall - Paint - Room 1" 2 "3.00 x 2.50" 15 "m2"
                               "Painting") "Room 1";
                AxisItem.mk (Sample.item "Wall - Paint - Room 2" 1 "4m x 2.50m" 10 "m2"
                               "Painting") "Room 2" ] (0 + 15 + 10))
           (AxisItem.mk (Sample.item "Wall - Paint - Room 2" 1 "4m x 2.50m" 10 "m2"
                           "Painting") "Room 2")).
  - vm_compute. left. reflexivity.
  - right. left. reflexivity.
Defined.

(** X14: in the initial view (empty search term, category ["All"]) nothing
    is filtered out, provided lowering the empty string gives the empty
    string: every item passes, the members of the groups are the items, the
    totals of the groups add up to the quantities of all items, and the
    on-screen rebar table lists every rebar record; without rebar records
    the table is empty whatever the search term. *)
Theorem initial_view_complete {R : JsRuntime}
    (items : list TakeoffItem.t) (rebarItems : option (list RebarItem.t)) :
  toLowerCase "" = "" ->
  List.filter (passesFilter "" "All") items = items /\
  Permutation (map AxisItem.item (flat_map GroupedItem.items (groupedData items "" "All")))
    items /\
  (sumQ (map GroupedItem.totalQuantity (groupedData items "" "All"))
   == sumQ (map TakeoffItem.quantity items))%Q /\
  filteredRebar rebarItems "" = default [] rebarItems /\
  (forall searchTerm, filteredRebar None searchTerm = []).
Proof.
  intros Hlow.
  assert (Hall : List.filter (passesFilter "" "All") items = items).
  { apply filter_all. intros x _. now apply passesFilter_initial. }
  destruct (groupFold_inv "" "All" items [] [] (List.Forall_nil _) (Permutation_refl _))
    as [Hok Hperm].
  cbn [app] in Hperm. rewrite Hall in Hperm.
  set (groups := fold_left (groupStep "" "All") items []) in *.
  assert (Hsort : Permutation (groupedData items "" "All") (map snd groups))
    by apply sort_perm.
  assert (Hmem : Permutation
                   (map AxisItem.item
                      (flat_map GroupedItem.items (groupedData items "" "All"))) items).
  { etransitivity; [|exact Hperm]. apply Permutation_map.
    rewrite (Permutation_flat_map GroupedItem.items Hsort). rewrite flat_map_concat_map.
    rewrite map_map. rewrite <- flat_map_concat_map. reflexivity. }
  split; [exact Hall|]. split; [exact Hmem|]. split; [|split].
  - rewrite sumQ_totals.
    + apply sumQ_perm. unfold memberQuantity.
      rewrite <- (map_map AxisItem.item TakeoffItem.quantity). now apply Permutation_map.
    + eapply Permutation_Forall; [symmetry; exact Hsort|].
      clear -Hok. induction Hok; constructor; assumption.
  - unfold filteredRebar. rewrite Hlow. apply filter_all. intros x _.
    now rewrite includes_nil.
  - reflexivity.
Qed.

Lemma initial_view_complete_witness :
  List.filter (passesFilter (R := Reference.runtime) "" "All") Sample.items = Sample.items /\
  Permutation
    (map AxisItem.item
       (flat_map GroupedItem.items (groupedData (R := Reference.runtime) Sample.items "" "All")))
    Sample.items /\
  (sumQ (map GroupedItem.totalQuantity
           (groupedData (R := Reference.runtime) Sample.items "" "All"))
   == sumQ (map TakeoffItem.quantity Sample.items))%Q /\
  filteredRebar (R := Reference.runtime) (Some Sample.rebarItems) ""
  = default [] (Some Sample.rebarItems) /\
  (forall searchTerm, filteredRebar (R := Reference.runtime) None searchTerm = []).
Proof.
  apply (initial_view_complete (R := Reference.runtime) Sample.items (Some Sample.rebarItems)).
  reflexivity.
Defined.

(** ** More on the item classifier *)

Section ClassifyFacts.

Import JsString.

Lemma join_snoc sep (l : list string) (x : string) :
  l <> [] -> join sep (l ++ [x]) = join sep l ++ sep ++ x.
Proof.
  induction l as [|p [|q l] IH]; intros Hne; [congruence | reflexivity|].
  change ((p :: q :: l) ++ [x])%list with (p :: (q :: l) ++ [x])%list.
  rewrite join_cons by (cbn; discriminate). rewrite IH by discriminate.
  rewrite (join_cons sep p (q :: l)) by discriminate.
  now rewrite !string_app_assoc.
Qed.

Lemma prefix_app_l p a t : String.prefix p a = true -> String.prefix p (a ++ t) = true.
Proof.
  revert a. induction p as [|c p IH]; intros a H; [apply prefix_nil|].
  apply prefix_cons_inv in H as (a' & -> & H). rewrite app_cons. cbn [String.prefix].
  destruct (Ascii.ascii_dec c c); [now apply IH | congruence].
Qed.

Lemma includes_cons needle c hay :
  includes needle (String c hay) = String.prefix needle (String c hay) || includes needle hay.
Proof. reflexivity. Qed.

(** The first segment is a prefix of the string. *)
Lemma splitDash_head s :
  exists seg rest tail, splitDash s = seg :: rest /\ s = seg ++ tail.
Proof.
  destruct (splitDash s) as [|seg rest] eqn:Hs; [now apply splitDash_nonempty in Hs|].
  pose proof (join_splitDash s) as Hj. rewrite Hs in Hj.
  destruct rest as [|r rest].
  - exists seg, [], "". split; [reflexivity|]. cbn in Hj. now rewrite string_app_nil_r.
  - exists seg, (r :: rest), (" - " ++ join " - " (r :: rest)). split; [reflexivity|].
    rewrite join_cons in Hj by discriminate. now symmetry.
Qed.

(** No segment contains the delimiter. *)
Lemma splitDash_segments s :
  List.Forall (fun seg => includes " - " seg = false) (splitDash s).
Proof.
  remember (String.length s) as n eqn:Hn.
  revert s Hn; induction n as [n IH] using lt_wf_ind; intros s Hn.
  destruct s as [|c s]; [repeat constructor|].
  rewrite splitDash_step.
  destruct (String.prefix " - " (String c s)) eqn:Hp.
  - constructor; [reflexivity|].
    apply (IH (String.length (dropChars 2 s))); [|reflexivity].
    pose proof (dropChars_length_le 2 s). simpl in Hn. lia.
  - pose proof (IH (String.length s) ltac:(simpl in Hn; lia) s eq_refl) as Hs.
    destruct (splitDash_head s) as (seg & rest & tail & Heq & Htail).
    rewrite Heq in Hs |- *. cbn [consHead].
    apply List.Forall_cons_iff in Hs as [Hseg Hrest].
    constructor; [|exact Hrest].
    rewrite includes_cons, Hseg, orb_false_r.
    destruct (String.prefix " - " (String c seg)) eqn:Hp'; [|reflexivity].
    apply (prefix_app_l _ _ tail) in Hp'. rewrite app_cons, <- Htail in Hp'. congruence.
Qed.

Lemma last_In {A : Type} (l : list A) (d : A) : l <> [] -> In (List.last l d) l.
Proof.
  induction l as [|x [|y l] IH]; intros Hne; [congruence | now left|].
  right. apply IH. discriminate.
Qed.

End ClassifyFacts.

(** X15: the classifier loses nothing and its location label never holds
    the delimiter: with two or more segments the description is the group
    name, the delimiter and the last segment; with one segment the group
    name is the description; the location label does not contain [" - "];
    and the label is empty only for a description of exactly two segments
    that ends with the delimiter. *)
Theorem classify_lossless (description : string) :
  ((2 <= length (JsString.splitDash description))%nat ->
   description
   = fst (classify description) ++ " - " ++ List.last (JsString.splitDash description) "") /\
  ((length (JsString.splitDash description) < 2)%nat ->
   classify description = (description, "General")) /\
  JsString.includes " - " (snd (classify description)) = false /\
  (snd (classify description) = "" ->
   length (JsString.splitDash description) = 2%nat /\
   description = fst (classify description) ++ " - ").
Proof.
  pose proof (join_splitDash description) as Hj.
  pose proof (splitDash_segments description) as Hseg.
  unfold classify.
  destruct (JsString.splitDash description) as [|a [|b [|c parts]]] eqn:Hs.
  - now apply splitDash_nonempty in Hs.
  - cbn [length Nat.leb Nat.eqb fst snd]. split; [intros H; lia|].
    split; [reflexivity|]. split; [reflexivity | discriminate].
  - cbn [length Nat.leb Nat.eqb fst snd nth List.last].
    apply List.Forall_cons_iff in Hseg as [_ Hseg].
    apply List.Forall_cons_iff in Hseg as [Hb _].
    split; [intros _; now symmetry|]. split; [intros H; lia|].
    split; [exact Hb|]. intros ->. split; [reflexivity | now symmetry].
  - change (3 <=? length (a :: b :: c :: parts))%nat with true. cbv iota. cbn [fst snd].
    assert (Hne : a :: b :: c :: parts <> []) by discriminate.
    assert (Hlast : In (List.last (a :: b :: c :: parts) "") (a :: b :: c :: parts))
      by now apply last_In.
    split; [|split; [|split]].
    + intros _. rewrite <- Hj at 1.
      rewrite (app_removelast_last "" Hne) at 1.
      apply join_snoc. cbn. discriminate.
    + cbn [length]. intros H. lia.
    + unfold popOrGeneral. rewrite List.Forall_forall in Hseg. specialize (Hseg _ Hlast).
      destruct (List.last (a :: b :: c :: parts) ""); [reflexivity | exact Hseg].
    + unfold popOrGeneral. destruct (List.last (a :: b :: c :: parts) ""); discriminate.
Qed.
